(** * Alertmanager alert provider (alerting/provider/alertmanager/alertmanager.go)

    A shallow embedding of the provider's configuration model ([Config],
    [Override], [AlertProvider]), of [Validate], [Merge], [GetConfig],
    [buildAlert] and of the delivery step [sendToAlertmanager], together
    with the properties of the specification that concern them.

    Go maps are reference objects: a [Config] holds a reference to a map,
    and [Merge] writes through that reference.  Map objects therefore live
    in an explicit store ([heap]) and the functions that create or write
    maps thread the store. *)

From Stdlib Require Import ZArith String Ascii List.
From stdpp Require Import base option gmap strings list fin_maps pretty.

Open Scope string_scope.
Open Scope Z_scope.

(** ** Data model *)

(** The store of map objects: the contents of every allocated
    [map[string]string], by its address. *)
Abbreviation heap := (gmap positive (gmap string string)).

(** A field of type [map[string]string]: the address of a map object, or
    [None] for the nil map. *)
Abbreviation mapref := (option positive).

(** [*client.Config]: the transport configuration is opaque to this
    package (it is only handed to [client.GetHTTPClient], never read or
    written), so it is represented by a token; [None] is the nil pointer. *)
Definition client_Config := positive.

(** [time.Duration]: a signed count of nanoseconds. *)
Definition Duration := Z.
Definition time_Second : Duration := 1000000000.

(** [time.Time] as the number of nanoseconds since the zero instant
    [time.Time{}]. *)
Definition Time := Z.
Definition zero_Time : Time := 0.

Record Config := mkConfig {
  URL : string;
  Timeout : Duration;
  DefaultSeverity : string;
  ExtraLabels : mapref;
  ExtraAnnotations : mapref;
  ClientConfig : option client_Config
}.

Record Override := mkOverride {
  Group : string;
  OverrideConfig : Config
}.

(** The errors the provider returns.  The wrapping errors carry the
    message of their cause; [ErrStatus] carries the status code and the
    body read from the response. *)
Inductive error :=
  | ErrAlertmanagerURLNotSet
  | ErrUnmarshal (cause : string)
  | ErrMarshal (cause : string)
  | ErrCreateRequest (cause : string)
  | ErrSendRequest (cause : string)
  | ErrStatus (code : Z) (body : string).

(** The text of [err.Error()]. *)
Definition error_message (e : error) : string :=
  match e with
  | ErrAlertmanagerURLNotSet => "alertmanager URL not set"
  | ErrUnmarshal cause => cause
  | ErrMarshal cause => "failed to marshal alerts: " ++ cause
  | ErrCreateRequest cause => "failed to create request: " ++ cause
  | ErrSendRequest cause => "failed to send request to Alertmanager: " ++ cause
  | ErrStatus code body =>
      "Alertmanager returned status " ++ pretty code ++ ": " ++ body
  end.

(** Modelled from the spec: the alert descriptor of package [alert], which
    is not part of this slice.  It exposes an optional description and an
    optional raw per-alert override document. *)
Record Alert := mkAlert {
  Description : option string;
  ProviderOverride : string
}.

(** Modelled from the spec: [alert.GetDescription], of the same package;
    the empty string when no description is set. *)
Definition GetDescription (a : Alert) : string :=
  match Description a with
  | None => ""
  | Some d => d
  end.

Record AlertProvider := mkAlertProvider {
  DefaultConfig : Config;
  DefaultAlert : option Alert;
  Overrides : list Override
}.

(** Modelled from the spec: the endpoint and check-result descriptors of
    package [endpoint] (name, URL and group; list of error strings). *)
Record Endpoint := mkEndpoint {
  EpName : string;
  EpURL : string;
  EpGroup : string
}.

Record Result := mkResult {
  Success : bool;
  Errors : list string
}.

Record AlertmanagerAlert := mkAlertmanagerAlert {
  Labels : gmap string string;
  Annotations : gmap string string;
  StartsAt : Time;
  EndsAt : Time
}.

(** ** Map objects in the store *)

(** Reading through a map reference; a nil map reads as the empty map. *)
Definition deref (h : heap) (r : mapref) : gmap string string :=
  match r with
  | None => ∅
  | Some l => default ∅ (h !! l)
  end.

(** [make(map[string]string)]: a new, empty map object at an unused
    location. *)
Definition make (h : heap) : heap * positive :=
  let l := fresh (dom h) in (<[l := ∅]> h, l).

(** [m[k] = v] on the object at [l]. *)
Definition map_assign (h : heap) (l : positive) (k v : string) : heap :=
  alter (insert k v) l h.

(** [for k, v := range src { dst[k] = v }], the entries of [src] being
    visited in the order of the list [es]. *)
Definition range_assign (h : heap) (l : positive)
    (es : list (string * string)) : heap :=
  foldl (fun h' e => map_assign h' l e.1 e.2) h es.

(** ** Validate *)

Definition Validate (cfg : Config) : Config * option error :=
  if (String.length (URL cfg) =? 0)%nat then (cfg, Some ErrAlertmanagerURLNotSet)
  else
    let cfg1 :=
      if Timeout cfg =? 0
      then mkConfig (URL cfg) (10 * time_Second) (DefaultSeverity cfg)
             (ExtraLabels cfg) (ExtraAnnotations cfg) (ClientConfig cfg)
      else cfg in
    let cfg2 :=
      if (String.length (DefaultSeverity cfg1) =? 0)%nat
      then mkConfig (URL cfg1) (Timeout cfg1) "critical"
             (ExtraLabels cfg1) (ExtraAnnotations cfg1) (ClientConfig cfg1)
      else cfg1 in
    (cfg2, None).

(** ** Merge *)

(** The map part of [Merge] for one field: when the override's map has
    entries, the receiver's map is created if it is nil and every entry of
    the override is assigned into it. *)
Definition merge_map (h : heap) (dst src : mapref) : heap * mapref :=
  let srcm := deref h src in
  if (0 <? size srcm)%nat then
    let '(h1, l) :=
      match dst with
      | None => make h
      | Some l => (h, l)
      end in
    (range_assign h1 l (map_to_list srcm), Some l)
  else (h, dst).

Definition Merge (h : heap) (cfg override : Config) : heap * Config :=
  let cc := match ClientConfig override with
            | Some p => Some p
            | None => ClientConfig cfg
            end in
  let url := if (0 <? String.length (URL override))%nat
             then URL override else URL cfg in
  let timeout := if 0 <? Timeout override
                 then Timeout override else Timeout cfg in
  let sev := if (0 <? String.length (DefaultSeverity override))%nat
             then DefaultSeverity override else DefaultSeverity cfg in
  let '(h1, labels) := merge_map h (ExtraLabels cfg) (ExtraLabels override) in
  let '(h2, annots) :=
    merge_map h1 (ExtraAnnotations cfg) (ExtraAnnotations override) in
  (h2, mkConfig url timeout sev labels annots cc).

(** ** GetConfig *)

(** The document [yaml.Unmarshal] decodes into a zero [Config]: scalar
    fields, and maps that the decoder creates anew ([None]: key absent). *)
Record ParsedConfig := mkParsedConfig {
  pURL : string;
  pTimeout : Duration;
  pDefaultSeverity : string;
  pExtraLabels : option (gmap string string);
  pExtraAnnotations : option (gmap string string);
  pClientConfig : option client_Config
}.

(** The YAML decoder is an external library: [yaml_Unmarshal] stands for
    [yaml.Unmarshal(alert.ProviderOverrideAsBytes(), &overrideConfig)] and
    yields the decoded document or the decoder's error message. *)
Class Unmarshaler := yaml_Unmarshal : string -> ParsedConfig + string.

(** A map created by the decoder becomes a new object of the store. *)
Definition alloc_map (h : heap) (m : option (gmap string string))
    : heap * mapref :=
  match m with
  | None => (h, None)
  | Some m => let l := fresh (dom h) in (<[l := m]> h, Some l)
  end.

Definition alloc_parsed (h : heap) (p : ParsedConfig) : heap * Config :=
  let '(h1, labels) := alloc_map h (pExtraLabels p) in
  let '(h2, annots) := alloc_map h1 (pExtraAnnotations p) in
  (h2, mkConfig (pURL p) (pTimeout p) (pDefaultSeverity p)
         labels annots (pClientConfig p)).

(** The deep copy of one map field at the start of [GetConfig]. *)
Definition copy_map (h : heap) (r : mapref) : heap * mapref :=
  match r with
  | None => (h, None)
  | Some _ =>
      let '(h1, l) := make h in
      (range_assign h1 l (map_to_list (deref h r)), Some l)
  end.

(** The loop over [provider.Overrides]: the first override whose group is
    the given one is merged, and the loop is left. *)
Fixpoint merge_group (h : heap) (cfg : Config) (group : string)
    (overrides : list Override) : heap * Config :=
  match overrides with
  | [] => (h, cfg)
  | override :: rest =>
      if String.eqb group (Group override)
      then Merge h cfg (OverrideConfig override)
      else merge_group h cfg group rest
  end.

(** [GetConfig] returns a pointer to the configuration (nil when the
    override document does not decode) and an error. *)
Definition GetConfig `{Unmarshaler} (h : heap) (provider : AlertProvider)
    (group : string) (alert : Alert) : heap * (option Config * option error) :=
  let cfg := DefaultConfig provider in
  let '(h1, labels) := copy_map h (ExtraLabels cfg) in
  let '(h2, annots) := copy_map h1 (ExtraAnnotations cfg) in
  let cfg := mkConfig (URL cfg) (Timeout cfg) (DefaultSeverity cfg)
               labels annots (ClientConfig cfg) in
  let '(h3, cfg) := merge_group h2 cfg group (Overrides provider) in
  if negb (String.length (ProviderOverride alert) =? 0)%nat then
    match yaml_Unmarshal (ProviderOverride alert) with
    | inr cause => (h3, (None, Some (ErrUnmarshal cause)))
    | inl parsed =>
        let '(h4, overrideConfig) := alloc_parsed h3 parsed in
        let '(h5, cfg) := Merge h4 cfg overrideConfig in
        let '(cfg, err) := Validate cfg in
        (h5, (Some cfg, err))
    end
  else
    let '(cfg, err) := Validate cfg in
    (h3, (Some cfg, err)).

(** ** buildAlert *)

(** [strings.Join]. *)
Fixpoint strings_Join (elems : list string) (sep : string) : string :=
  match elems with
  | [] => ""
  | [e] => e
  | e :: rest => e ++ sep ++ strings_Join rest sep
  end.

(** [for k, v := range src { m[k] = v }] on a map held by value. *)
Definition range_insert (m : gmap string string)
    (es : list (string * string)) : gmap string string :=
  foldl (fun m' e => <[e.1 := e.2]> m') m es.

(** [now] is the instant read from [time.Now()]. *)
Definition buildAlert (h : heap) (cfg : Config) (ep : Endpoint)
    (alert : Alert) (result : Result) (resolved : bool) (now : Time)
    : AlertmanagerAlert :=
  let labels : gmap string string := ∅ in
  let labels := <["alertname" := "GatusEndpointDown"]> labels in
  let labels := <["instance" := EpURL ep]> labels in
  let labels := <["job" := "gatus"]> labels in
  let labels := <["severity" := DefaultSeverity cfg]> labels in
  let labels := <["endpoint" := EpName ep]> labels in
  let labels := if negb (String.eqb (EpGroup ep) "")
                then <["group" := EpGroup ep]> labels else labels in
  let labels :=
    range_insert labels (map_to_list (deref h (ExtraLabels cfg))) in
  let annots : gmap string string := ∅ in
  let '(annots, endsAt) :=
    if resolved then
      let annots :=
        <["summary" := "Endpoint " ++ EpName ep ++ " is now healthy"]> annots in
      let annots :=
        <["description" := "Endpoint " ++ EpName ep ++ " (" ++ EpURL ep
           ++ ") has recovered and is now passing health checks"]> annots in
      (annots, now)
    else
      let annots :=
        <["summary" := "Endpoint " ++ EpName ep ++ " is down"]> annots in
      let description :=
        "Endpoint " ++ EpName ep ++ " (" ++ EpURL ep
          ++ ") has failed health checks" in
      let description :=
        if (0 <? length (Errors result))%nat
        then description ++ ". Errors: " ++ strings_Join (Errors result) ", "
        else description in
      (<["description" := description]> annots, zero_Time) in
  let annots := if negb (String.eqb (GetDescription alert) "")
                then <["alert_description" := GetDescription alert]> annots
                else annots in
  let annots :=
    range_insert annots (map_to_list (deref h (ExtraAnnotations cfg))) in
  mkAlertmanagerAlert labels annots now endsAt.

(** ** Delivery *)

(** [strings.HasSuffix] and [strings.TrimSuffix]. *)
Definition strings_HasSuffix (s suffix : string) : bool :=
  (String.length suffix <=? String.length s)%nat
  && String.eqb
       (substring (String.length s - String.length suffix)
          (String.length suffix) s)
       suffix.

Definition strings_TrimSuffix (s suffix : string) : string :=
  if strings_HasSuffix s suffix
  then substring 0 (String.length s - String.length suffix) s
  else s.

(** The request target computed from the configured URL. *)
Definition alerts_url (cfgURL : string) : string :=
  let url := strings_TrimSuffix cfgURL "/" in
  if negb (strings_HasSuffix url "/api/v2/alerts")
  then url ++ "/api/v2/alerts"
  else url.

Record Request := mkRequest {
  Method : string;
  ReqURL : string;
  ContentType : string;
  ReqBody : string;
  ReqClient : option client_Config;
  ReqTimeout : option Duration
}.

(** [StatusCode] and the bytes [io.ReadAll] obtains from the body. *)
Record Response := mkResponse {
  StatusCode : Z;
  RespBody : string
}.

(** The outside world of the delivery step: the JSON encoder, the
    validation done by [http.NewRequest] and the round trip of the HTTP
    client.  Each yields its result or the message of its error. *)
Class Transport := mkTransport {
  json_Marshal : list AlertmanagerAlert -> string + string;
  http_NewRequest : string -> option string;
  http_Do : Request -> Response + string
}.

(** The request [sendToAlertmanager] issues: a POST of the payload to the
    alerts URL, by the client of [cfg.ClientConfig], whose timeout is
    replaced by [cfg.Timeout] when that is positive. *)
Definition alerts_request (cfg : Config) (jsonPayload : string) : Request :=
  mkRequest "POST" (alerts_url (URL cfg)) "application/json" jsonPayload
    (ClientConfig cfg)
    (if 0 <? Timeout cfg then Some (Timeout cfg) else None).

Definition sendToAlertmanager `{Transport} (cfg : Config)
    (alerts : list AlertmanagerAlert) : option error :=
  match json_Marshal alerts with
  | inr cause => Some (ErrMarshal cause)
  | inl jsonPayload =>
      let url := alerts_url (URL cfg) in
      match http_NewRequest url with
      | Some cause => Some (ErrCreateRequest cause)
      | None =>
          match http_Do (alerts_request cfg jsonPayload) with
          | inr cause => Some (ErrSendRequest cause)
          | inl resp =>
              if (StatusCode resp <? 200) || (300 <=? StatusCode resp)
              then Some (ErrStatus (StatusCode resp) (RespBody resp))
              else None
          end
      end
  end.

Definition Send `{Unmarshaler} `{Transport} (h : heap)
    (provider : AlertProvider) (ep : Endpoint) (alert : Alert)
    (result : Result) (resolved : bool) (now : Time) : heap * option error :=
  let '(h1, (cfg, err)) := GetConfig h provider (EpGroup ep) alert in
  match err with
  | Some e => (h1, Some e)
  | None =>
      match cfg with
      | Some cfg =>
          let alertPayload :=
            buildAlert h1 cfg ep alert result resolved now in
          (h1, sendToAlertmanager cfg [alertPayload])
      | None => (h1, None) (* not reached: a nil pointer comes with an error *)
      end
  end.

(** ** Configurations of the test suite

    The values of [TestConfig_Merge] and [TestAlertProvider_buildAlert],
    used to run the definitions. *)

Definition test_heap : heap :=
  {[ 1%positive := {[ "team" := "platform" ]};
     2%positive := {[ "environment" := "test" ]};
     3%positive := {[ "runbook" := "https://wiki.example.com" ]} ]}.

Definition test_base : Config :=
  mkConfig "http://base:9093" 0 "critical" (Some 1%positive) None None.

Definition test_override : Config :=
  mkConfig "" 0 "warning" (Some 2%positive) (Some 3%positive) None.

(** A receiver and an override that hold the same map object. *)
Definition shared_base : Config :=
  mkConfig "http://base:9093" 0 "critical" (Some 1%positive) None None.

Definition shared_override : Config :=
  mkConfig "" 0 "" (Some 1%positive) None None.

(** An override whose timeout is negative. *)
Definition timeout_base : Config :=
  mkConfig "http://base:9093" (5 * time_Second) "critical" None None None.

Definition negative_override : Config :=
  mkConfig "" (-1) "" None None None.

(** ** Stores, references and denotations *)

(** A reference is well formed when it is nil or points to an allocated
    object; this holds of every reference of a running program. *)
Definition ref_ok (h : heap) (r : mapref) : bool :=
  match r with
  | None => true
  | Some l => match h !! l with Some _ => true | None => false end
  end.

Definition wf_config (h : heap) (c : Config) : bool :=
  ref_ok h (ExtraLabels c) && ref_ok h (ExtraAnnotations c).

Definition wf_provider (h : heap) (p : AlertProvider) : bool :=
  wf_config h (DefaultConfig p)
  && forallb (fun o => wf_config h (OverrideConfig o)) (Overrides p).

(** Two references that do not denote the same object. *)
Definition distinct_refs (a b : mapref) : bool :=
  match a, b with
  | Some x, Some y => negb (Pos.eqb x y)
  | _, _ => true
  end.

(** What a configuration denotes in a store: its scalar fields and the
    contents of its maps. *)
Record ConfigView := mkView {
  vURL : string;
  vTimeout : Duration;
  vDefaultSeverity : string;
  vExtraLabels : gmap string string;
  vExtraAnnotations : gmap string string;
  vClientConfig : option client_Config
}.

Definition view (h : heap) (c : Config) : ConfigView :=
  mkView (URL c) (Timeout c) (DefaultSeverity c)
    (deref h (ExtraLabels c)) (deref h (ExtraAnnotations c)) (ClientConfig c).

(** [Merge] on denotations: scalars are replaced when the override's is
    set, the override's entries are laid over the receiver's. *)
Definition MergeV (b o : ConfigView) : ConfigView :=
  mkView
    (if (0 <? String.length (vURL o))%nat then vURL o else vURL b)
    (if 0 <? vTimeout o then vTimeout o else vTimeout b)
    (if (0 <? String.length (vDefaultSeverity o))%nat
     then vDefaultSeverity o else vDefaultSeverity b)
    (vExtraLabels o ∪ vExtraLabels b)
    (vExtraAnnotations o ∪ vExtraAnnotations b)
    (match vClientConfig o with
     | Some p => Some p
     | None => vClientConfig b
     end).

(** A reference produced by a step from [r]: the same reference, or a new
    object where [r] was nil. *)
Definition kept_or_new (h : heap) (r r' : mapref) : Prop :=
  r' = r \/ (r = None /\ exists l, r' = Some l /\ h !! l = None).

(** The receiver's maps are objects of its own: its two maps are distinct
    objects, and neither is an object the override refers to. *)
Definition private_maps (b o : Config) : bool :=
  distinct_refs (ExtraLabels b) (ExtraAnnotations b)
  && distinct_refs (ExtraLabels b) (ExtraLabels o)
  && distinct_refs (ExtraLabels b) (ExtraAnnotations o)
  && distinct_refs (ExtraAnnotations b) (ExtraLabels o)
  && distinct_refs (ExtraAnnotations b) (ExtraAnnotations o).

(** A reference that is nil or an object the store [h0] does not hold. *)
Definition new_ref (h0 : heap) (r : mapref) : Prop :=
  forall l, r = Some l -> h0 !! l = None.

(** Every object of [h0] is in [h] with the contents it had. *)
Definition extends (h0 h : heap) : Prop :=
  forall l, is_Some (h0 !! l) -> h !! l = h0 !! l.

(** The state of [GetConfig] after the copies: the working configuration
    owns two distinct objects that the caller's store [h0] did not hold,
    and the objects of [h0] are as they were. *)
Definition working_copy (h0 h : heap) (cfg : Config) : Prop :=
  extends h0 h
  /\ wf_config h cfg = true
  /\ distinct_refs (ExtraLabels cfg) (ExtraAnnotations cfg) = true
  /\ new_ref h0 (ExtraLabels cfg)
  /\ new_ref h0 (ExtraAnnotations cfg).

(** ** The layers of GetConfig on denotations *)

(** [Validate] on denotations. *)
Definition ValidateV (v : ConfigView) : ConfigView * option error :=
  if (String.length (vURL v) =? 0)%nat
  then (v, Some ErrAlertmanagerURLNotSet)
  else
    (mkView (vURL v)
       (if vTimeout v =? 0 then 10 * time_Second else vTimeout v)
       (if (String.length (vDefaultSeverity v) =? 0)%nat
        then "critical" else vDefaultSeverity v)
       (vExtraLabels v) (vExtraAnnotations v) (vClientConfig v),
     None).

(** What a decoded document denotes. *)
Definition parsed_view (p : ParsedConfig) : ConfigView :=
  mkView (pURL p) (pTimeout p) (pDefaultSeverity p)
    (default ∅ (pExtraLabels p)) (default ∅ (pExtraAnnotations p))
    (pClientConfig p).

(** The first override, in declaration order, whose group is the given
    one. *)
Definition first_match (group : string) (overrides : list Override)
    : option Override :=
  List.find (fun o => String.eqb group (Group o)) overrides.

(** The effective configuration as the specification describes it: start
    from the default configuration, merge the first override of the group,
    merge the decoded override document of the alert when the alert carries
    one, and validate. *)
Definition effective_config `{Unmarshaler} (h : heap)
    (provider : AlertProvider) (group : string) (alert : Alert)
    : option ConfigView * option error :=
  let start := view h (DefaultConfig provider) in
  let grouped :=
    match first_match group (Overrides provider) with
    | Some o => MergeV start (view h (OverrideConfig o))
    | None => start
    end in
  if String.eqb (ProviderOverride alert) "" then
    let '(v, err) := ValidateV grouped in (Some v, err)
  else
    match yaml_Unmarshal (ProviderOverride alert) with
    | inr cause => (None, Some (ErrUnmarshal cause))
    | inl parsed =>
        let '(v, err) := ValidateV (MergeV grouped (parsed_view parsed)) in
        (Some v, err)
    end.

(** A layer that sets no field. *)
Definition no_layer : ConfigView := mkView "" 0 "" ∅ ∅ None.

(** What the group layer and the alert layer of a call denote. *)
Definition group_layer (h : heap) (provider : AlertProvider)
    (group : string) : ConfigView :=
  match first_match group (Overrides provider) with
  | Some o => view h (OverrideConfig o)
  | None => no_layer
  end.

Definition alert_layer `{Unmarshaler} (alert : Alert) : ConfigView :=
  if String.eqb (ProviderOverride alert) "" then no_layer
  else
    match yaml_Unmarshal (ProviderOverride alert) with
    | inl parsed => parsed_view parsed
    | inr _ => no_layer
    end.

(** The map objects a configuration, and a provider, refer to. *)
Definition refs (c : Config) : list positive :=
  option_list (ExtraLabels c) ++ option_list (ExtraAnnotations c).

Definition provider_refs (p : AlertProvider) : list positive :=
  refs (DefaultConfig p)
  ++ concat (map (fun o => refs (OverrideConfig o)) (Overrides p)).

(** The precedence of three layers in a resulting configuration [v]: a
    field the alert layer [a] sets is the alert's; otherwise a field the
    group layer [g] sets is the group's; otherwise a field the default [d]
    sets is the default's; a map entry is the alert's, else the group's,
    else the default's. *)
Definition precedence (d g a v : ConfigView) : Prop :=
  (vURL a <> "" -> vURL v = vURL a)
  /\ (vURL a = "" -> vURL g <> "" -> vURL v = vURL g)
  /\ (vURL a = "" -> vURL g = "" -> vURL v = vURL d)
  /\ (vDefaultSeverity a <> "" -> vDefaultSeverity v = vDefaultSeverity a)
  /\ (vDefaultSeverity a = "" -> vDefaultSeverity g <> "" ->
        vDefaultSeverity v = vDefaultSeverity g)
  /\ (vDefaultSeverity a = "" -> vDefaultSeverity g = "" ->
        vDefaultSeverity d <> "" -> vDefaultSeverity v = vDefaultSeverity d)
  /\ (0 < vTimeout a -> vTimeout v = vTimeout a)
  /\ (vTimeout a <= 0 -> 0 < vTimeout g -> vTimeout v = vTimeout g)
  /\ (vTimeout a <= 0 -> vTimeout g <= 0 -> vTimeout d <> 0 ->
        vTimeout v = vTimeout d)
  /\ (vClientConfig a <> None -> vClientConfig v = vClientConfig a)
  /\ (vClientConfig a = None -> vClientConfig g <> None ->
        vClientConfig v = vClientConfig g)
  /\ (vClientConfig a = None -> vClientConfig g = None ->
        vClientConfig v = vClientConfig d)
  /\ (forall k,
        vExtraLabels v !! k =
          match vExtraLabels a !! k with
          | Some x => Some x
          | None => match vExtraLabels g !! k with
                    | Some x => Some x
                    | None => vExtraLabels d !! k
                    end
          end)
  /\ (forall k,
        vExtraAnnotations v !! k =
          match vExtraAnnotations a !! k with
          | Some x => Some x
          | None => match vExtraAnnotations g !! k with
                    | Some x => Some x
                    | None => vExtraAnnotations d !! k
                    end
          end).

(** ** A provider for the examples *)

(** A decoder that knows the override documents of the examples and
    rejects every other document. *)
Definition example_unmarshal : Unmarshaler := fun doc =>
  if String.eqb doc "default-severity: info"
  then inl (mkParsedConfig "" 0 "info" None None None)
  else if String.eqb doc "extra-labels: {team: sre}"
  then inl (mkParsedConfig "" 0 "" (Some {[ "team" := "sre" ]}) None None)
  else inr "yaml: unmarshal errors".

(** Two overrides for the group "prod" and one for the empty group. *)
Definition example_provider : AlertProvider :=
  mkAlertProvider test_base None
    [ mkOverride "prod" test_override;
      mkOverride "prod" (mkConfig "http://late:9093" 0 "none" None None None);
      mkOverride "" (mkConfig "http://nogroup:9093" 0 "" None None None) ].

Definition example_alert : Alert :=
  mkAlert None "default-severity: info".

(** ** Values for the payload examples *)

(** The store and configuration of [TestAlertProvider_buildAlert]. *)
Definition build_heap : heap :=
  {[ 1%positive := {[ "environment" := "test" ]};
     2%positive := {[ "runbook" := "https://wiki.example.com/runbook" ]} ]}.

Definition build_config : Config :=
  mkConfig "http://alertmanager:9093" 0 "warning"
    (Some 1%positive) (Some 2%positive) None.

Definition build_endpoint : Endpoint :=
  mkEndpoint "Test API" "https://api.example.com/health" "production".

Definition build_alert : Alert :=
  mkAlert (Some "API health check failed") "".

Definition build_result : Result :=
  mkResult false ["connection timeout"; "DNS resolution failed"].

(** A configuration whose extra annotations carry the key "summary". *)
Definition summary_heap : heap :=
  {[ 1%positive := {[ "summary" := "see the runbook" ]} ]}.

Definition summary_config : Config :=
  mkConfig "http://alertmanager:9093" 0 "warning" None (Some 1%positive) None.

(** A transport whose server answers every request with 503. *)
Definition unavailable_transport : Transport :=
  mkTransport (fun _ => inl "[]") (fun _ => None)
    (fun _ => inl (mkResponse 503 "service unavailable")).

(** A transport whose server accepts every request, as the mock server of
    [TestAlertProvider_Send]. *)
Definition accepting_transport : Transport :=
  mkTransport (fun _ => inl "[{}]") (fun _ => None)
    (fun _ => inl (mkResponse 200 "")).

(** ** The provider's remaining methods *)

(** [AlertProvider.Validate]: validates the stored default
    configuration in place, so the defaults it fills stay in the provider. *)
Definition AlertProvider_Validate (provider : AlertProvider)
    : AlertProvider * option error :=
  let '(cfg, err) := Validate (DefaultConfig provider) in
  (mkAlertProvider cfg (DefaultAlert provider) (Overrides provider), err).

Definition GetDefaultAlert (provider : AlertProvider) : option Alert :=
  DefaultAlert provider.

(** [ValidateOverrides]: the error of [GetConfig], its configuration
    dropped. *)
Definition ValidateOverrides `{Unmarshaler} (h : heap)
    (provider : AlertProvider) (group : string) (alert : Alert)
    : heap * option error :=
  let '(h1, (_, err)) := GetConfig h provider group alert in
  (h1, err).

(** ** Receivers that share map objects *)

(** A receiver whose two map fields hold the same object. *)
Definition alias_fields_base : Config :=
  mkConfig "http://base:9093" 0 "critical"
    (Some 1%positive) (Some 1%positive) None.

(** An override that sets only the annotations. *)
Definition annotations_override : Config :=
  mkConfig "" 0 "" None (Some 3%positive) None.

(** A store with an empty map object, held both by a receiver, as its
    labels, and by an override, as its annotations. *)
Definition empty_map_heap : heap :=
  {[ 1%positive := ∅; 2%positive := {[ "environment" := "test" ]} ]}.

Definition empty_labels_base : Config :=
  mkConfig "http://base:9093" 0 "critical" (Some 1%positive) None None.

Definition empty_annotations_override : Config :=
  mkConfig "" 0 "" (Some 2%positive) (Some 1%positive) None.

(** ** A provider with timeouts at every level *)

(** A decoder for an alert document that sets a negative timeout. *)
Definition timeout_unmarshal : Unmarshaler := fun doc =>
  if String.eqb doc "timeout: -1ns"
  then inl (mkParsedConfig "" (-1) "" None None None)
  else inr "yaml: unmarshal errors".

(** A default timeout of 5 seconds, 3 seconds for the group "prod". *)
Definition timeout_provider : AlertProvider :=
  mkAlertProvider
    (mkConfig "http://base:9093" (5 * time_Second) "" None None None) None
    [ mkOverride "prod" (mkConfig "" (3 * time_Second) "" None None None) ].

Definition timeout_alert : Alert := mkAlert None "timeout: -1ns".

(** * Properties *)

(** ** Strings *)

Lemma length_zero_empty (s : string) :
  (String.length s =? 0)%nat = true <-> s = "".
Proof.
  destruct s; simpl; split; intros Hs; try reflexivity; discriminate.
Qed.

Lemma length_pos_nonempty (s : string) :
  (0 <? String.length s)%nat = true <-> s <> "".
Proof.
  destruct s; simpl; split; intros Hs; try discriminate; try reflexivity.
  now contradiction Hs.
Qed.

(** ** Range loops *)

(** Assigning the entries of a list without duplicate keys gives the map of
    the list laid over the initial map, whatever the order of the visits. *)
Lemma range_insert_lookup (es : list (string * string))
    (m : gmap string string) (k : string) :
  NoDup es.*1 ->
  range_insert m es !! k =
    match (list_to_map es : gmap string string) !! k with
    | Some v => Some v
    | None => m !! k
    end.
Proof.
  unfold range_insert. revert m.
  induction es as [|[k0 v0] es IH]; intros m Hnd; simpl.
  - by rewrite lookup_empty.
  - inversion Hnd as [|? ? Hnotin Hnd']; subst.
    rewrite IH by done.
    destruct (decide (k0 = k)) as [->|Hne].
    + rewrite lookup_insert_eq.
      rewrite (not_elem_of_list_to_map_1 (M:=gmap string) es k Hnotin).
      by rewrite lookup_insert_eq.
    + by rewrite !lookup_insert_ne.
Qed.

Lemma range_insert_perm (es : list (string * string))
    (src m : gmap string string) :
  es ≡ₚ map_to_list src -> range_insert m es = src ∪ m.
Proof.
  intros Hp. apply map_eq. intros k.
  assert (Hnd : NoDup es.*1).
  { rewrite Hp. apply NoDup_fst_map_to_list. }
  rewrite range_insert_lookup by done.
  rewrite (list_to_map_proper es (map_to_list src) Hnd Hp).
  rewrite list_to_map_to_list, lookup_union.
  destruct (src !! k), (m !! k); done.
Qed.

Lemma range_insert_union (src m : gmap string string) :
  range_insert m (map_to_list src) = src ∪ m.
Proof. by apply range_insert_perm. Qed.

(** The loop writing through a reference touches the one object only, and
    does to it what the loop on a value does. *)
Lemma range_assign_lookup_ne (h : heap) (l l' : positive)
    (es : list (string * string)) :
  l <> l' -> range_assign h l es !! l' = h !! l'.
Proof.
  unfold range_assign, map_assign. revert h.
  induction es as [|e es IH]; intros h Hne; simpl; [done|].
  rewrite IH by done. by rewrite lookup_alter_ne.
Qed.

Lemma range_assign_lookup (h : heap) (l : positive)
    (es : list (string * string)) (m : gmap string string) :
  h !! l = Some m -> range_assign h l es !! l = Some (range_insert m es).
Proof.
  unfold range_assign, range_insert, map_assign. revert h m.
  induction es as [|e es IH]; intros h m Hl; simpl; [done|].
  apply IH. by rewrite lookup_alter_eq, Hl.
Qed.

Lemma range_assign_lookup_none (h : heap) (l : positive)
    (es : list (string * string)) :
  h !! l = None -> range_assign h l es !! l = None.
Proof.
  unfold range_assign, map_assign. revert h.
  induction es as [|e es IH]; intros h Hl; simpl; [done|].
  apply IH. by rewrite lookup_alter_eq, Hl.
Qed.

(** Go visits the entries of a map in an unspecified order: the store
    after the loop is the same for every order of the visits. *)
Lemma range_assign_perm (h : heap) (l : positive)
    (src : gmap string string) (es : list (string * string)) :
  es ≡ₚ map_to_list src ->
  range_assign h l es = range_assign h l (map_to_list src).
Proof.
  intros Hp. apply map_eq. intros l'.
  destruct (decide (l = l')) as [<-|Hne].
  - destruct (h !! l) as [m|] eqn:Hl.
    + rewrite !(range_assign_lookup h l _ m Hl).
      by rewrite (range_insert_perm es src m Hp), range_insert_union.
    + by rewrite !range_assign_lookup_none.
  - by rewrite !range_assign_lookup_ne.
Qed.

(** ** Well-formed stores *)

Lemma distinct_refs_spec (a b : mapref) :
  distinct_refs a b = true <-> (forall l, a = Some l -> b <> Some l).
Proof.
  destruct a as [x|], b as [y|]; simpl; split; try done.
  - intros Hxy l [= ->] [= ->]. by rewrite Pos.eqb_refl in Hxy.
  - intros Hxy. destruct (Pos.eqb_spec x y) as [->|]; [|done].
    by destruct (Hxy y).
Qed.

Lemma ref_ok_spec (h : heap) (r : mapref) :
  ref_ok h r = true <-> (forall l, r = Some l -> is_Some (h !! l)).
Proof.
  destruct r as [l|]; simpl; split; try done.
  - intros Hl l' [= <-]. destruct (h !! l); [eauto|done].
  - intros Hl. destruct (Hl l eq_refl) as [m ->]. done.
Qed.

(** ** The map part of Merge *)

Lemma make_fresh (h h' : heap) (l : positive) :
  make h = (h', l) -> h !! l = None /\ h' = <[l := ∅]> h.
Proof.
  unfold make. intros [= <- <-]. split; [|done].
  apply not_elem_of_dom. apply is_fresh.
Qed.

Lemma merge_map_spec (h h' : heap) (dst src r : mapref) :
  ref_ok h dst = true ->
  merge_map h dst src = (h', r) ->
  deref h' r = deref h src ∪ deref h dst
  /\ (forall l, Some l <> r -> h' !! l = h !! l)
  /\ (r = dst \/ (dst = None /\ exists l, r = Some l /\ h !! l = None))
  /\ ref_ok h' r = true
  /\ (forall l, is_Some (h !! l) -> is_Some (h' !! l)).
Proof.
  intros Hok. unfold merge_map.
  destruct (0 <? size (deref h src))%nat eqn:Hsz.
  - destruct dst as [l|]; simpl in Hok.
    + intros [= <- <-].
      destruct (h !! l) as [m|] eqn:Hl; [|done].
      split; [|split; [|split; [|split]]].
      * simpl. rewrite (range_assign_lookup h l _ m Hl). simpl.
        rewrite Hl. simpl. apply range_insert_union.
      * intros l' Hne. apply range_assign_lookup_ne. congruence.
      * by left.
      * simpl. by rewrite (range_assign_lookup h l _ m Hl).
      * intros l' Hl'. destruct (decide (l = l')) as [<-|Hne].
        -- rewrite (range_assign_lookup h l _ m Hl). eauto.
        -- by rewrite range_assign_lookup_ne.
    + destruct (make h) as [h1 l] eqn:Hmk. intros [= <- <-].
      apply make_fresh in Hmk as [Hfresh ->].
      assert (Hl : <[l := ∅]> h !! l = Some (∅ : gmap string string))
        by apply lookup_insert_eq.
      split; [|split; [|split; [|split]]].
      * simpl. rewrite (range_assign_lookup _ l _ ∅ Hl). simpl.
        apply range_insert_union.
      * intros l' Hne. rewrite range_assign_lookup_ne by congruence.
        apply lookup_insert_ne. congruence.
      * right. eauto.
      * simpl. by rewrite (range_assign_lookup _ l _ ∅ Hl).
      * intros l' Hl'. destruct (decide (l = l')) as [<-|Hne].
        -- rewrite (range_assign_lookup _ l _ ∅ Hl). eauto.
        -- rewrite range_assign_lookup_ne by done.
           by rewrite lookup_insert_ne.
  - intros [= <- <-].
    apply Nat.ltb_ge in Hsz.
    assert (Hemp : deref h src = ∅).
    { apply map_size_empty_iff. lia. }
    rewrite Hemp. rewrite (left_id_L ∅ (∪)).
    repeat split; auto.
Qed.

(** Whether the field is touched depends on the override's entries. *)
Lemma merge_map_ref (h h' : heap) (dst src r : mapref) :
  merge_map h dst src = (h', r) ->
  (deref h src = ∅ -> r = dst)
  /\ (deref h src <> ∅ -> r <> None).
Proof.
  unfold merge_map.
  destruct (0 <? size (deref h src))%nat eqn:Hsz.
  - apply Nat.ltb_lt in Hsz. intros HM. split.
    + intros He. rewrite He, map_size_empty in Hsz. lia.
    + intros _. destruct dst; [|destruct (make h)];
        injection HM as <- <-; done.
  - apply Nat.ltb_ge in Hsz. intros [= <- <-]. split; [done|].
    intros Hne. destruct Hne. apply map_size_empty_iff. lia.
Qed.

(** ** Configurations read through the store *)

Lemma Merge_spec (h h' : heap) (b o b' : Config) :
  wf_config h b = true ->
  wf_config h o = true ->
  distinct_refs (ExtraLabels b) (ExtraAnnotations b) = true ->
  distinct_refs (ExtraLabels b) (ExtraAnnotations o) = true ->
  Merge h b o = (h', b') ->
  view h' b' = MergeV (view h b) (view h o)
  /\ (forall l, Some l <> ExtraLabels b' -> Some l <> ExtraAnnotations b' ->
        h' !! l = h !! l)
  /\ kept_or_new h (ExtraLabels b) (ExtraLabels b')
  /\ kept_or_new h (ExtraAnnotations b) (ExtraAnnotations b')
  /\ wf_config h' b' = true
  /\ distinct_refs (ExtraLabels b') (ExtraAnnotations b') = true
  /\ (forall l, is_Some (h !! l) -> is_Some (h' !! l))
  /\ (deref h (ExtraLabels o) = ∅ -> ExtraLabels b' = ExtraLabels b)
  /\ (deref h (ExtraLabels o) <> ∅ -> ExtraLabels b' <> None)
  /\ (deref h (ExtraAnnotations o) = ∅ ->
        ExtraAnnotations b' = ExtraAnnotations b)
  /\ (deref h (ExtraAnnotations o) <> ∅ -> ExtraAnnotations b' <> None).
Proof.
  intros Hwb Hwo Hd1 Hd2. unfold Merge.
  apply andb_prop in Hwb as [HwbL HwbA].
  apply andb_prop in Hwo as [HwoL HwoA].
  destruct (merge_map h (ExtraLabels b) (ExtraLabels o)) as [h1 rl] eqn:E1.
  destruct (merge_map h1 (ExtraAnnotations b) (ExtraAnnotations o))
    as [h2 ra] eqn:E2.
  intros [= <- <-].
  destruct (merge_map_spec _ _ _ _ _ HwbL E1)
    as (HL & HfrL & HkL & HokL & HmonoL).
  (* the labels step leaves the annotation objects as they were *)
  assert (HrlA : distinct_refs rl (ExtraAnnotations b) = true).
  { apply distinct_refs_spec. intros l -> Hb.
    destruct HkL as [Hk|(_ & l' & [= <-] & Hnone)].
    - rewrite <- Hk in Hd1.
      by apply (proj1 (distinct_refs_spec _ _) Hd1 l).
    - apply (proj1 (ref_ok_spec _ _) HwbA) in Hb as [? ?]. congruence. }
  assert (HrlO : distinct_refs rl (ExtraAnnotations o) = true).
  { apply distinct_refs_spec. intros l -> Hb.
    destruct HkL as [Hk|(_ & l' & [= <-] & Hnone)].
    - rewrite <- Hk in Hd2.
      by apply (proj1 (distinct_refs_spec _ _) Hd2 l).
    - apply (proj1 (ref_ok_spec _ _) HwoA) in Hb as [? ?]. congruence. }
  assert (Hsame : forall r, distinct_refs rl r = true -> deref h1 r = deref h r).
  { intros [l|] Hr; [|done]. simpl. rewrite HfrL; [done|].
    intros <-. by apply (proj1 (distinct_refs_spec _ _) Hr l). }
  assert (HwbA1 : ref_ok h1 (ExtraAnnotations b) = true).
  { apply ref_ok_spec. intros l Hl. apply HmonoL.
    by apply (proj1 (ref_ok_spec _ _) HwbA). }
  destruct (merge_map_spec _ _ _ _ _ HwbA1 E2)
    as (HA & HfrA & HkA & HokA & HmonoA).
  rewrite !Hsame in HA by done.
  (* the annotation step leaves the labels object as it was *)
  assert (Hd' : distinct_refs rl ra = true).
  { apply distinct_refs_spec. intros l -> Hra.
    destruct HkA as [Hk|(_ & l' & Hl' & Hnone)].
    - rewrite Hk in Hra.
      by apply (proj1 (distinct_refs_spec _ _) HrlA l).
    - rewrite Hl' in Hra. injection Hra as ->.
      destruct (proj1 (ref_ok_spec _ _) HokL l eq_refl) as [? ?].
      congruence. }
  assert (HL2 : deref h2 rl = deref h1 rl).
  { destruct rl as [l|]; [|done]. simpl. rewrite HfrA; [done|].
    intros <-. by apply (proj1 (distinct_refs_spec _ _) Hd' l). }
  destruct (merge_map_ref _ _ _ _ _ E1) as [HrefL1 HrefL2].
  destruct (merge_map_ref _ _ _ _ _ E2) as [HrefA1 HrefA2].
  rewrite Hsame in HrefA1, HrefA2 by done.
  split; [|split; [|split; [|split; [|split; [|split; [|split; [|split;
    [|split; [|split]]]]]]]]]; simpl.
  - unfold view, MergeV. simpl. rewrite HL2, HL, HA. done.
  - intros l Hl1 Hl2. rewrite HfrA, HfrL; done.
  - exact HkL.
  - destruct HkA as [Hk|(Hn & l & Hl & Hnone)]; [by left|right].
    split; [done|]. exists l. split; [done|].
    destruct (h !! l) eqn:Hhl; [|done].
    destruct (HmonoL l) as [? ?]; [eauto|congruence].
  - unfold wf_config. simpl. rewrite HokA, andb_true_r.
    apply ref_ok_spec. intros l Hl. apply HmonoA.
    by apply (proj1 (ref_ok_spec _ _) HokL).
  - exact Hd'.
  - intros l Hl. by apply HmonoA, HmonoL.
  - exact HrefL1.
  - exact HrefL2.
  - exact HrefA1.
  - exact HrefA2.
Qed.

Lemma private_maps_elim (b o : Config) :
  private_maps b o = true ->
  distinct_refs (ExtraLabels b) (ExtraAnnotations b) = true
  /\ distinct_refs (ExtraLabels b) (ExtraLabels o) = true
  /\ distinct_refs (ExtraLabels b) (ExtraAnnotations o) = true
  /\ distinct_refs (ExtraAnnotations b) (ExtraLabels o) = true
  /\ distinct_refs (ExtraAnnotations b) (ExtraAnnotations o) = true.
Proof.
  unfold private_maps. intros Hp.
  repeat (apply andb_prop in Hp as [Hp ?]). auto.
Qed.

(** A reference kept or newly made is not one of the allocated objects it
    was distinct from. *)
Lemma kept_or_new_distinct (h : heap) (r r' other : mapref) :
  kept_or_new h r r' ->
  ref_ok h other = true ->
  distinct_refs r other = true ->
  distinct_refs r' other = true.
Proof.
  intros [->|(-> & l & -> & Hnone)] Hok Hd; [done|].
  apply distinct_refs_spec. intros l' [= <-] Ho.
  destruct (proj1 (ref_ok_spec _ _) Hok l Ho) as [? ?]. congruence.
Qed.

(** ** Validate *)

Example Validate_test_valid :
  Validate (mkConfig "http://alertmanager:9093" 0 "" None None None)
  = (mkConfig "http://alertmanager:9093" 10000000000 "critical" None None None,
     None).
Proof. reflexivity. Qed.

Example Validate_test_missing_url :
  snd (Validate (mkConfig "" 0 "" None None None))
  = Some ErrAlertmanagerURLNotSet.
Proof. reflexivity. Qed.

(** C4. [Validate] fails with [ErrAlertmanagerURLNotSet] on every
    configuration whose URL is empty.  On every configuration whose URL is
    not empty it succeeds; the timeout becomes 10 seconds when it was zero
    and the default severity becomes "critical" when it was empty, both are
    kept when they were set, and no other field changes. *)
Theorem Validate_url_and_defaults (cfg : Config) :
  (URL cfg = "" ->
     Validate cfg = (cfg, Some ErrAlertmanagerURLNotSet))
  /\ (URL cfg <> "" ->
       exists cfg', Validate cfg = (cfg', None)
         /\ (Timeout cfg = 0 -> Timeout cfg' = 10 * 1000000000)
         /\ (Timeout cfg <> 0 -> Timeout cfg' = Timeout cfg)
         /\ (DefaultSeverity cfg = "" -> DefaultSeverity cfg' = "critical")
         /\ (DefaultSeverity cfg <> "" ->
               DefaultSeverity cfg' = DefaultSeverity cfg)
         /\ URL cfg' = URL cfg
         /\ ExtraLabels cfg' = ExtraLabels cfg
         /\ ExtraAnnotations cfg' = ExtraAnnotations cfg
         /\ ClientConfig cfg' = ClientConfig cfg).
Proof.
  unfold Validate. split.
  - intros Hu. by rewrite (proj2 (length_zero_empty _) Hu).
  - intros Hu.
    destruct (String.length (URL cfg) =? 0)%nat eqn:E.
    { by apply length_zero_empty in E. }
    eexists. split; [reflexivity|].
    destruct (Z.eqb_spec (Timeout cfg) 0) as [Ht|Ht]; simpl;
      destruct (DefaultSeverity cfg) as [|c sev] eqn:Hs; simpl;
      repeat split; try done; intros; congruence.
Qed.

(** ** Merge *)

Example Merge_test_url :
  URL (Merge test_heap test_base test_override).2 = "http://base:9093".
Proof. reflexivity. Qed.

Example Merge_test_severity :
  DefaultSeverity (Merge test_heap test_base test_override).2 = "warning".
Proof. reflexivity. Qed.

Example Merge_test_labels :
  let '(h, base) := Merge test_heap test_base test_override in
  deref h (ExtraLabels base) !! "team" = Some "platform"
  /\ deref h (ExtraLabels base) !! "environment" = Some "test"
  /\ deref h (ExtraAnnotations base) !! "runbook"
     = Some "https://wiki.example.com".
Proof. vm_compute. auto. Qed.

(** [Merge] on a receiver that owns its maps, read through the store. *)
Lemma Merge_private (h h' : heap) (B O B' : Config) :
  wf_config h B = true ->
  wf_config h O = true ->
  private_maps B O = true ->
  Merge h B O = (h', B') ->
  view h' B' = MergeV (view h B) (view h O)
  /\ private_maps B' O = true
  /\ kept_or_new h (ExtraLabels B) (ExtraLabels B')
  /\ kept_or_new h (ExtraAnnotations B) (ExtraAnnotations B').
Proof.
  intros HwB HwO Hp HM.
  destruct (private_maps_elim _ _ Hp) as (H1 & H2 & H3 & H4 & H5).
  destruct (Merge_spec _ _ _ _ _ HwB HwO H1 H3 HM)
    as (Hv & _ & HkL & HkA & _ & Hd & _).
  apply andb_prop in HwO as [HwOL HwOA].
  split; [done|]. split; [|done].
  unfold private_maps. rewrite Hd. simpl.
  rewrite (kept_or_new_distinct _ _ _ _ HkL HwOL H2).
  rewrite (kept_or_new_distinct _ _ _ _ HkL HwOA H3).
  rewrite (kept_or_new_distinct _ _ _ _ HkA HwOL H4).
  rewrite (kept_or_new_distinct _ _ _ _ HkA HwOA H5).
  done.
Qed.

Lemma mono_ref_ok (h h' : heap) (r : mapref) :
  (forall l, is_Some (h !! l) -> is_Some (h' !! l)) ->
  ref_ok h r = true -> ref_ok h' r = true.
Proof.
  intros Hm Hr. apply ref_ok_spec. intros l Hl. apply Hm.
  by apply (proj1 (ref_ok_spec _ _) Hr).
Qed.

(** The map part of [Merge] keeps the receiver's reference or makes a new
    object, and frees nothing, whatever the references are. *)
Lemma range_assign_mono (h : heap) (l l' : positive)
    (es : list (string * string)) :
  is_Some (h !! l') -> is_Some (range_assign h l es !! l').
Proof.
  intros Hl'. destruct (decide (l = l')) as [<-|Hne].
  - destruct Hl' as [m Hm]. rewrite (range_assign_lookup h l es m Hm). eauto.
  - by rewrite range_assign_lookup_ne.
Qed.

Lemma merge_map_kept (h h' : heap) (dst src r : mapref) :
  merge_map h dst src = (h', r) ->
  kept_or_new h dst r
  /\ (forall l, is_Some (h !! l) -> is_Some (h' !! l)).
Proof.
  unfold merge_map.
  destruct (0 <? size (deref h src))%nat.
  - destruct dst as [l|].
    + intros [= <- <-]. split; [by left|].
      intros l' Hl'. by apply range_assign_mono.
    + destruct (make h) as [h1 l] eqn:Hmk. intros [= <- <-].
      apply make_fresh in Hmk as [Hfresh ->]. split.
      * right. eauto.
      * intros l' Hl'. apply range_assign_mono.
        destruct (decide (l = l')) as [<-|Hne].
        -- rewrite lookup_insert_eq. eauto.
        -- by rewrite lookup_insert_ne.
  - intros [= <- <-]. split; [by left|done].
Qed.

Lemma Merge_kept_or_new (h h' : heap) (B O B' : Config) :
  Merge h B O = (h', B') ->
  kept_or_new h (ExtraLabels B) (ExtraLabels B')
  /\ kept_or_new h (ExtraAnnotations B) (ExtraAnnotations B').
Proof.
  unfold Merge.
  destruct (merge_map h (ExtraLabels B) (ExtraLabels O)) as [h1 rl] eqn:E1.
  destruct (merge_map h1 (ExtraAnnotations B) (ExtraAnnotations O))
    as [h2 ra] eqn:E2.
  intros [= <- <-]. simpl.
  destruct (merge_map_kept _ _ _ _ _ E1) as [HkL HmonoL].
  destruct (merge_map_kept _ _ _ _ _ E2) as [HkA _].
  split; [done|].
  destruct HkA as [Hk|(Hn & l & Hl & Hnone)]; [by left|right].
  split; [done|]. exists l. split; [done|].
  destruct (h !! l) eqn:Hhl; [|done].
  destruct (HmonoL l) as [? ?]; [eauto|congruence].
Qed.

(** The scalar fields after [Merge], for every receiver and override. *)
Lemma Merge_scalars (h h' : heap) (B O B' : Config) :
  Merge h B O = (h', B') ->
  URL B' = (if (0 <? String.length (URL O))%nat then URL O else URL B)
  /\ Timeout B' = (if 0 <? Timeout O then Timeout O else Timeout B)
  /\ DefaultSeverity B'
     = (if (0 <? String.length (DefaultSeverity O))%nat
        then DefaultSeverity O else DefaultSeverity B)
  /\ ClientConfig B'
     = match ClientConfig O with
       | Some p => Some p
       | None => ClientConfig B
       end.
Proof.
  unfold Merge.
  destruct (merge_map h (ExtraLabels B) (ExtraLabels O)) as [h1 rl].
  destruct (merge_map h1 (ExtraAnnotations B) (ExtraAnnotations O))
    as [h2 ra].
  by intros [= <- <-].
Qed.

(** The label map after [Merge], for a receiver whose two map fields are
    not one object: nothing is required of the override. *)
Lemma Merge_labels (h h' : heap) (B O B' : Config) :
  wf_config h B = true ->
  distinct_refs (ExtraLabels B) (ExtraAnnotations B) = true ->
  Merge h B O = (h', B') ->
  deref h' (ExtraLabels B')
  = deref h (ExtraLabels O) ∪ deref h (ExtraLabels B)
  /\ (deref h (ExtraLabels O) = ∅ -> ExtraLabels B' = ExtraLabels B)
  /\ (deref h (ExtraLabels O) <> ∅ -> ExtraLabels B' <> None).
Proof.
  intros Hwb Hd1. unfold Merge.
  apply andb_prop in Hwb as [HwbL HwbA].
  destruct (merge_map h (ExtraLabels B) (ExtraLabels O)) as [h1 rl] eqn:E1.
  destruct (merge_map h1 (ExtraAnnotations B) (ExtraAnnotations O))
    as [h2 ra] eqn:E2.
  intros [= <- <-]. simpl.
  destruct (merge_map_spec _ _ _ _ _ HwbL E1)
    as (HL & _ & HkL & HokL & HmonoL).
  destruct (merge_map_ref _ _ _ _ _ E1) as [Href1 Href2].
  pose proof (mono_ref_ok _ _ _ HmonoL HwbA) as HwbA1.
  destruct (merge_map_spec _ _ _ _ _ HwbA1 E2) as (_ & HfrA & HkA & _).
  split; [|done]. rewrite <- HL.
  destruct rl as [l|]; [|done]. simpl. rewrite HfrA; [done|].
  intros <-.
  destruct HkA as [Hk|(_ & l' & [= <-] & Hnone)].
  - destruct HkL as [HkL|(_ & l' & [= <-] & Hnone)].
    + rewrite <- HkL, <- Hk in Hd1.
      by apply (proj1 (distinct_refs_spec _ _) Hd1 l).
    + symmetry in Hk.
      destruct (proj1 (ref_ok_spec _ _) HwbA l Hk) as [? ?]. congruence.
  - destruct (proj1 (ref_ok_spec _ _) HokL l eq_refl) as [? ?]. congruence.
Qed.

(** Whether the label reference is kept depends on the override's label
    map only. *)
Lemma Merge_labels_ref (h h' : heap) (B O B' : Config) :
  Merge h B O = (h', B') ->
  (deref h (ExtraLabels O) <> ∅ -> ExtraLabels B' <> None)
  /\ (deref h (ExtraLabels O) = ∅ -> ExtraLabels B' = ExtraLabels B).
Proof.
  unfold Merge.
  destruct (merge_map h (ExtraLabels B) (ExtraLabels O)) as [h1 rl] eqn:E1.
  destruct (merge_map h1 (ExtraAnnotations B) (ExtraAnnotations O))
    as [h2 ra].
  intros [= <- <-]. simpl.
  destruct (merge_map_ref _ _ _ _ _ E1) as [H1 H2]. by split.
Qed.

(** The references of a well-formed configuration are allocated. *)
Lemma wf_config_allocated (h : heap) (c : Config) (l : positive) :
  wf_config h c = true -> l ∈ refs c -> is_Some (h !! l).
Proof.
  unfold wf_config, refs. intros Hw Hl. apply andb_prop in Hw as [HL HA].
  apply elem_of_app in Hl as [Hl|Hl].
  - destruct (ExtraLabels c) as [x|] eqn:E; simpl in Hl.
    + apply list_elem_of_singleton in Hl as ->.
      exact (proj1 (ref_ok_spec _ _) HL x eq_refl).
    + by apply elem_of_nil in Hl.
  - destruct (ExtraAnnotations c) as [x|] eqn:E; simpl in Hl.
    + apply list_elem_of_singleton in Hl as ->.
      exact (proj1 (ref_ok_spec _ _) HA x eq_refl).
    + by apply elem_of_nil in Hl.
Qed.

(** C3, as stated, fails.  When the receiver and the override already hold
    the same map object, the receiver still holds that object after the
    merge.  And when the receiver's two map fields hold one object, the
    label map also receives the override's annotations, so it is not the
    union of the two label maps. *)
Lemma Merge_keeps_shared_map :
  (wf_config test_heap shared_base = true
   /\ wf_config test_heap shared_override = true
   /\ ExtraLabels (Merge test_heap shared_base shared_override).2
      = Some 1%positive
   /\ ExtraLabels shared_override = Some 1%positive
   /\ ~ (forall l,
          ExtraLabels (Merge test_heap shared_base shared_override).2
          = Some l ->
          ExtraLabels shared_override <> Some l))
  /\ (wf_config test_heap alias_fields_base = true
      /\ wf_config test_heap test_override = true
      /\ deref (Merge test_heap alias_fields_base test_override).1
           (ExtraLabels (Merge test_heap alias_fields_base test_override).2)
         !! "runbook" = Some "https://wiki.example.com"
      /\ (deref test_heap (ExtraLabels test_override)
            ∪ deref test_heap (ExtraLabels alias_fields_base))
         !! "runbook" = None).
Proof.
  vm_compute. repeat split; try reflexivity.
  intros Hno. by apply (Hno 1%positive).
Qed.

(** C3 (amended). For every base [B] and override [O], [B.Merge(O)] keeps
    [B.URL] when [O.URL] is empty and replaces it by [O.URL] otherwise.
    Afterwards, provided the two map fields of [B] did not hold one and the
    same object, [B.ExtraLabels] holds the union of the keys of the two
    label maps, with the value of [O] on every key of [O].  Each map object
    stored in [B] after the merge is the object [B] stored in that field
    before, or a newly made one: it is an object [O] refers to only when
    [B] already stored that object. *)
Theorem Merge_url_labels_no_alias (h h' : heap) (B O B' : Config) :
  Merge h B O = (h', B') ->
  (URL O = "" -> URL B' = URL B)
  /\ (URL O <> "" -> URL B' = URL O)
  /\ (wf_config h B = true ->
      distinct_refs (ExtraLabels B) (ExtraAnnotations B) = true ->
      deref h' (ExtraLabels B')
      = deref h (ExtraLabels O) ∪ deref h (ExtraLabels B)
      /\ (forall k,
            deref h' (ExtraLabels B') !! k =
              match deref h (ExtraLabels O) !! k with
              | Some v => Some v
              | None => deref h (ExtraLabels B) !! k
              end))
  /\ kept_or_new h (ExtraLabels B) (ExtraLabels B')
  /\ kept_or_new h (ExtraAnnotations B) (ExtraAnnotations B')
  /\ (wf_config h O = true ->
      (forall l, ExtraLabels B' = Some l -> l ∈ refs O ->
         ExtraLabels B = Some l)
      /\ (forall l, ExtraAnnotations B' = Some l -> l ∈ refs O ->
            ExtraAnnotations B = Some l)).
Proof.
  intros HM.
  destruct (Merge_scalars _ _ _ _ _ HM) as (HU & _).
  destruct (Merge_kept_or_new _ _ _ _ _ HM) as [HkL HkA].
  split; [|split; [|split; [|split; [|split]]]]; try done.
  - intros HO. by rewrite HU, HO.
  - intros HO. by rewrite HU, (proj2 (length_pos_nonempty _) HO).
  - intros HwB Hd.
    destruct (Merge_labels _ _ _ _ _ HwB Hd HM) as (HL & _).
    split; [done|]. intros k. rewrite HL, lookup_union.
    destruct (deref h (ExtraLabels O) !! k),
      (deref h (ExtraLabels B) !! k); done.
  - intros HwO.
    assert (Hnew : forall r r', kept_or_new h r r' ->
              forall l, r' = Some l -> l ∈ refs O -> r = Some l).
    { intros r r' [->|(_ & l' & -> & Hnone)] l Hl HlO; [done|].
      injection Hl as ->.
      destruct (wf_config_allocated _ _ _ HwO HlO) as [? ?]. congruence. }
    split; eauto.
Qed.

Lemma Merge_url_labels_no_alias_witness :
  deref (Merge test_heap test_base test_override).1
    (ExtraLabels (Merge test_heap test_base test_override).2)
  = deref test_heap (ExtraLabels test_override)
      ∪ deref test_heap (ExtraLabels test_base).
Proof.
  refine (proj1 (proj1 (proj2 (proj2
    (Merge_url_labels_no_alias test_heap _ test_base test_override _ _)))
    _ _)).
  - apply surjective_pairing.
  - reflexivity.
  - reflexivity.
Defined.

(** C6, as stated, fails.  A negative override timeout is not zero, and it
    does not replace the receiver's timeout.  And "exactly when present"
    fails for the maps of a receiver that shares objects: when the
    receiver's two map fields hold one object, an override that sets only
    the annotations changes the receiver's labels too; when the receiver's
    labels and the override's annotations hold one empty map object, the
    annotations are merged although the override's annotation map was
    empty. *)
Lemma Merge_ignores_negative_timeout :
  (Timeout negative_override <> 0
   /\ Timeout (Merge ∅ timeout_base negative_override).2
      = Timeout timeout_base
   /\ Timeout (Merge ∅ timeout_base negative_override).2
      <> Timeout negative_override)
  /\ (deref test_heap (ExtraLabels annotations_override) = ∅
      /\ deref (Merge test_heap alias_fields_base annotations_override).1
           (ExtraLabels
              (Merge test_heap alias_fields_base annotations_override).2)
         <> deref test_heap (ExtraLabels alias_fields_base))
  /\ (deref empty_map_heap (ExtraAnnotations empty_annotations_override) = ∅
      /\ ExtraAnnotations
           (Merge empty_map_heap empty_labels_base
              empty_annotations_override).2
         <> ExtraAnnotations empty_labels_base).
Proof.
  vm_compute. repeat split; try discriminate.
Qed.

(** C6 (amended). For every base and every override, [Merge] replaces a
    scalar field of the receiver exactly when the override's field is
    present: a non-empty string for [URL] and [DefaultSeverity], a strictly
    positive duration for [Timeout] (a zero or negative override timeout
    leaves the receiver's), a non-nil pointer for [ClientConfig].  The
    receiver's [ExtraLabels] reference is kept when the override's label
    map is nil or empty, and is not nil otherwise.  For a receiver whose
    two map fields are not one object, the label map is unchanged when the
    override's is nil or empty and otherwise holds the override's entries
    laid over its own; if moreover the receiver's label map is not the
    override's annotation map, the same holds of [ExtraAnnotations]. *)
Theorem Merge_replaces_present_fields (h h' : heap) (B O B' : Config) :
  Merge h B O = (h', B') ->
  (URL O <> "" -> URL B' = URL O)
  /\ (URL O = "" -> URL B' = URL B)
  /\ (DefaultSeverity O <> "" -> DefaultSeverity B' = DefaultSeverity O)
  /\ (DefaultSeverity O = "" -> DefaultSeverity B' = DefaultSeverity B)
  /\ (0 < Timeout O -> Timeout B' = Timeout O)
  /\ (Timeout O <= 0 -> Timeout B' = Timeout B)
  /\ (ClientConfig O <> None -> ClientConfig B' = ClientConfig O)
  /\ (ClientConfig O = None -> ClientConfig B' = ClientConfig B)
  /\ (deref h (ExtraLabels O) <> ∅ -> ExtraLabels B' <> None)
  /\ (deref h (ExtraLabels O) = ∅ -> ExtraLabels B' = ExtraLabels B)
  /\ (wf_config h B = true ->
      distinct_refs (ExtraLabels B) (ExtraAnnotations B) = true ->
      (deref h (ExtraLabels O) <> ∅ ->
         deref h' (ExtraLabels B')
         = deref h (ExtraLabels O) ∪ deref h (ExtraLabels B))
      /\ (deref h (ExtraLabels O) = ∅ ->
            deref h' (ExtraLabels B') = deref h (ExtraLabels B)))
  /\ (wf_config h B = true ->
      wf_config h O = true ->
      distinct_refs (ExtraLabels B) (ExtraAnnotations B) = true ->
      distinct_refs (ExtraLabels B) (ExtraAnnotations O) = true ->
      (deref h (ExtraAnnotations O) <> ∅ ->
         ExtraAnnotations B' <> None
         /\ deref h' (ExtraAnnotations B')
            = deref h (ExtraAnnotations O) ∪ deref h (ExtraAnnotations B))
      /\ (deref h (ExtraAnnotations O) = ∅ ->
            ExtraAnnotations B' = ExtraAnnotations B
            /\ deref h' (ExtraAnnotations B')
               = deref h (ExtraAnnotations B))).
Proof.
  intros HM.
  destruct (Merge_scalars _ _ _ _ _ HM) as (HU & HT & HS & HC).
  split; [|split; [|split; [|split; [|split; [|split; [|split; [|split;
    [|split; [|split; [|split]]]]]]]]]].
  - intros HO. by rewrite HU, (proj2 (length_pos_nonempty _) HO).
  - intros HO. by rewrite HU, HO.
  - intros HO. by rewrite HS, (proj2 (length_pos_nonempty _) HO).
  - intros HO. by rewrite HS, HO.
  - intros HO. by rewrite HT, (proj2 (Z.ltb_lt _ _) HO).
  - intros HO. by rewrite HT, (proj2 (Z.ltb_ge _ _) HO).
  - rewrite HC. destruct (ClientConfig O); done.
  - intros HO. by rewrite HC, HO.
  - apply (Merge_labels_ref _ _ _ _ _ HM).
  - apply (Merge_labels_ref _ _ _ _ _ HM).
  - intros HwB Hd.
    destruct (Merge_labels _ _ _ _ _ HwB Hd HM) as (HL & _).
    split; intros HO; [done|].
    by rewrite HL, HO, (left_id_L ∅ (∪)).
  - intros HwB HwO H1 H3.
    destruct (Merge_spec _ _ _ _ _ HwB HwO H1 H3 HM)
      as (Hv & _ & _ & _ & _ & _ & _ & _ & _ & HA1 & HA2).
    pose proof (f_equal vExtraAnnotations Hv) as HA. simpl in HA.
    split; intros HO.
    + split; [by apply HA2|done].
    + split; [by apply HA1|].
      by rewrite HA, HO, (left_id_L ∅ (∪)).
Qed.

Lemma Merge_replaces_present_fields_witness :
  DefaultSeverity (Merge test_heap test_base test_override).2 = "warning".
Proof.
  refine (proj1 (proj2 (proj2
    (Merge_replaces_present_fields test_heap _ test_base test_override _
       _))) _).
  - apply surjective_pairing.
  - discriminate.
Defined.

(** ** The working copy of GetConfig *)

Lemma extends_refl (h : heap) : extends h h.
Proof. by intros l _. Qed.

Lemma extends_trans (h0 h1 h2 : heap) :
  extends h0 h1 -> extends h1 h2 -> extends h0 h2.
Proof.
  intros H01 H12 l Hl. rewrite H12, H01; [done..|].
  rewrite H01; done.
Qed.

Lemma extends_ref_ok (h0 h : heap) (r : mapref) :
  extends h0 h -> ref_ok h0 r = true -> ref_ok h r = true.
Proof.
  intros He Hr. apply ref_ok_spec. intros l ->.
  destruct (proj1 (ref_ok_spec _ _) Hr l eq_refl) as [m Hm].
  rewrite He; eauto.
Qed.

Lemma extends_deref (h0 h : heap) (r : mapref) :
  extends h0 h -> ref_ok h0 r = true -> deref h r = deref h0 r.
Proof.
  intros He Hr. destruct r as [l|]; [|done]. simpl.
  rewrite He; [done|]. by apply (proj1 (ref_ok_spec _ _) Hr).
Qed.

Lemma extends_wf_config (h0 h : heap) (c : Config) :
  extends h0 h -> wf_config h0 c = true -> wf_config h c = true.
Proof.
  unfold wf_config. intros He Hw. apply andb_prop in Hw as [H1 H2].
  by rewrite !(extends_ref_ok h0 h).
Qed.

Lemma extends_view (h0 h : heap) (c : Config) :
  extends h0 h -> wf_config h0 c = true -> view h c = view h0 c.
Proof.
  unfold wf_config, view. intros He Hw. apply andb_prop in Hw as [H1 H2].
  by rewrite !(extends_deref h0 h).
Qed.

(** A new object and an object of the caller's store are distinct. *)
Lemma new_ref_distinct (h0 : heap) (r other : mapref) :
  new_ref h0 r -> ref_ok h0 other = true -> distinct_refs r other = true.
Proof.
  intros Hn Hok. apply distinct_refs_spec. intros l Hl Ho.
  destruct (proj1 (ref_ok_spec _ _) Hok l Ho) as [? ?].
  rewrite (Hn l Hl) in *. done.
Qed.

Lemma kept_or_new_new_ref (h0 h : heap) (r r' : mapref) :
  extends h0 h -> kept_or_new h r r' -> new_ref h0 r -> new_ref h0 r'.
Proof.
  intros He [->|(-> & l & -> & Hnone)] Hn; [done|].
  intros l' [= <-]. destruct (h0 !! l) eqn:E; [|done].
  rewrite He in Hnone; [congruence|eauto].
Qed.

(** Merging into the working copy an override whose annotation object is
    not the working copy's label object. *)
Lemma Merge_working_copy (h0 h h' : heap) (cfg o cfg' : Config) :
  working_copy h0 h cfg ->
  wf_config h o = true ->
  distinct_refs (ExtraLabels cfg) (ExtraAnnotations o) = true ->
  Merge h cfg o = (h', cfg') ->
  working_copy h0 h' cfg'
  /\ view h' cfg' = MergeV (view h cfg) (view h o).
Proof.
  intros (He & Hw & Hd & HnL & HnA) Hwo Hd2 HM.
  destruct (Merge_spec _ _ _ _ _ Hw Hwo Hd Hd2 HM)
    as (Hv & Hfr & HkL & HkA & Hw' & Hd' & Hmono & _).
  pose proof (kept_or_new_new_ref _ _ _ _ He HkL HnL) as HnL'.
  pose proof (kept_or_new_new_ref _ _ _ _ He HkA HnA) as HnA'.
  split; [|exact Hv].
  repeat split; try done.
  intros l Hl. rewrite Hfr; [by apply He| |].
  - intros Heq. symmetry in Heq. apply HnL' in Heq.
    destruct Hl; congruence.
  - intros Heq. symmetry in Heq. apply HnA' in Heq.
    destruct Hl; congruence.
Qed.

(** The same for an override held by the caller's store. *)
Lemma Merge_working_copy_stored (h0 h h' : heap) (cfg o cfg' : Config) :
  working_copy h0 h cfg ->
  wf_config h0 o = true ->
  Merge h cfg o = (h', cfg') ->
  working_copy h0 h' cfg'
  /\ view h' cfg' = MergeV (view h cfg) (view h0 o).
Proof.
  intros Hwc Hwo HM.
  pose proof Hwc as (He & _ & _ & HnL & _).
  assert (HoA : ref_ok h0 (ExtraAnnotations o) = true).
  { unfold wf_config in Hwo. by apply andb_prop in Hwo as [_ ?]. }
  rewrite <- (extends_view h0 h o He Hwo).
  eapply Merge_working_copy; eauto using extends_wf_config, new_ref_distinct.
Qed.

(** The loop over the overrides merges the first match and nothing else. *)
Lemma merge_group_working_copy (h0 : heap) (group : string)
    (overrides : list Override) (h h' : heap) (cfg cfg' : Config) :
  working_copy h0 h cfg ->
  forallb (fun o => wf_config h0 (OverrideConfig o)) overrides = true ->
  merge_group h cfg group overrides = (h', cfg') ->
  working_copy h0 h' cfg'
  /\ view h' cfg' =
       match first_match group overrides with
       | Some o => MergeV (view h cfg) (view h0 (OverrideConfig o))
       | None => view h cfg
       end.
Proof.
  induction overrides as [|o rest IH]; simpl; intros Hwc Hall HM.
  - by injection HM as <- <-.
  - apply andb_prop in Hall as [Ho Hrest].
    destruct (String.eqb group (Group o)).
    + by eapply Merge_working_copy_stored.
    + by apply IH.
Qed.

(** The deep copy of a map field. *)
Lemma copy_map_spec (h h' : heap) (r r' : mapref) :
  ref_ok h r = true ->
  copy_map h r = (h', r') ->
  deref h' r' = deref h r
  /\ extends h h'
  /\ new_ref h r'
  /\ ref_ok h' r' = true
  /\ (forall l, Some l <> r' -> h' !! l = h !! l).
Proof.
  intros Hok. unfold copy_map. destruct r as [l0|].
  - destruct (make h) as [h1 l] eqn:Hmk. intros [= <- <-].
    apply make_fresh in Hmk as [Hfresh ->].
    assert (Hl : <[l := ∅]> h !! l = Some (∅ : gmap string string))
      by apply lookup_insert_eq.
    assert (Hfr : forall l', Some l' <> Some l ->
              range_assign (<[l := ∅]> h) l
                (map_to_list (deref h (Some l0))) !! l' = h !! l').
    { intros l' Hne. rewrite range_assign_lookup_ne by congruence.
      apply lookup_insert_ne. congruence. }
    split; [|split; [|split; [|split]]].
    + simpl. rewrite (range_assign_lookup _ l _ ∅ Hl). simpl.
      rewrite range_insert_union. apply (right_id_L ∅ (∪)).
    + intros l' Hl'. apply Hfr. intros [= ->].
      rewrite Hfresh in Hl'. by destruct Hl'.
    + by intros l' [= <-].
    + simpl. by rewrite (range_assign_lookup _ l _ ∅ Hl).
    + exact Hfr.
  - intros [= <- <-]. repeat split; try done.
Qed.

(** Allocating the maps of a decoded document. *)
Lemma alloc_map_spec (h h' : heap) (m : option (gmap string string))
    (r : mapref) :
  alloc_map h m = (h', r) ->
  deref h' r = default ∅ m
  /\ extends h h'
  /\ new_ref h r
  /\ ref_ok h' r = true.
Proof.
  unfold alloc_map. destruct m as [m|]; intros [= <- <-].
  - assert (Hfresh : h !! fresh (dom h) = None).
    { apply not_elem_of_dom. apply is_fresh. }
    split; [|split; [|split]]; simpl.
    + by rewrite lookup_insert_eq.
    + intros l Hl. apply lookup_insert_ne. intros <-.
      rewrite Hfresh in Hl. by destruct Hl.
    + by intros l [= <-].
    + by rewrite lookup_insert_eq.
  - repeat split; try done.
Qed.

Lemma alloc_parsed_spec (h h' : heap) (p : ParsedConfig) (o : Config) :
  alloc_parsed h p = (h', o) ->
  view h' o = parsed_view p
  /\ extends h h'
  /\ wf_config h' o = true
  /\ new_ref h (ExtraLabels o)
  /\ new_ref h (ExtraAnnotations o).
Proof.
  unfold alloc_parsed.
  destruct (alloc_map h (pExtraLabels p)) as [h1 rl] eqn:E1.
  destruct (alloc_map h1 (pExtraAnnotations p)) as [h2 ra] eqn:E2.
  intros [= <- <-].
  destruct (alloc_map_spec _ _ _ _ E1) as (HL & HeL & HnL & HokL).
  destruct (alloc_map_spec _ _ _ _ E2) as (HA & HeA & HnA & HokA).
  split; [|split; [|split; [|split]]]; simpl.
  - unfold view, parsed_view. simpl.
    by rewrite (extends_deref h1 h2 rl HeA HokL), HL, HA.
  - by eapply extends_trans.
  - unfold wf_config. simpl.
    by rewrite (extends_ref_ok h1 h2 rl HeA HokL), HokA.
  - exact HnL.
  - intros l Hl. destruct (h !! l) eqn:E; [|done].
    rewrite <- (HnA l Hl), HeL; eauto.
Qed.

(** [Validate] does not look at the maps. *)
Lemma Validate_view (h : heap) (c c' : Config) (err : option error) :
  Validate c = (c', err) ->
  ValidateV (view h c) = (view h c', err)
  /\ ExtraLabels c' = ExtraLabels c
  /\ ExtraAnnotations c' = ExtraAnnotations c.
Proof.
  unfold Validate, ValidateV. simpl.
  destruct (String.length (URL c) =? 0)%nat.
  - by intros [= <- <-].
  - destruct (Timeout c =? 0); simpl;
      destruct (String.length (DefaultSeverity c) =? 0)%nat;
      intros [= <- <-]; done.
Qed.


Lemma distinct_refs_sym (a b : mapref) :
  distinct_refs a b = distinct_refs b a.
Proof. destruct a, b; simpl; try done. by rewrite Pos.eqb_sym. Qed.

Lemma extends_new_ref (h0 h : heap) (r : mapref) :
  extends h0 h -> new_ref h r -> new_ref h0 r.
Proof.
  intros He Hn l Hl. destruct (h0 !! l) eqn:E; [|done].
  rewrite <- (Hn l Hl), He; eauto.
Qed.

Lemma working_copy_extends (h0 h h' : heap) (cfg : Config) :
  working_copy h0 h cfg -> extends h h' -> working_copy h0 h' cfg.
Proof.
  intros (He & Hw & Hd & HnL & HnA) Hext. repeat split; try done.
  - by eapply extends_trans.
  - by eapply extends_wf_config.
Qed.

(** The two copies at the start of [GetConfig]. *)
Lemma copies_working_copy (h h1 h2 : heap) (d : Config) (rl ra : mapref) :
  wf_config h d = true ->
  copy_map h (ExtraLabels d) = (h1, rl) ->
  copy_map h1 (ExtraAnnotations d) = (h2, ra) ->
  let cfg := mkConfig (URL d) (Timeout d) (DefaultSeverity d) rl ra
               (ClientConfig d) in
  working_copy h h2 cfg /\ view h2 cfg = view h d.
Proof.
  intros Hw E1 E2. apply andb_prop in Hw as [HwL HwA].
  destruct (copy_map_spec _ _ _ _ HwL E1) as (HL & HeL & HnL & HokL & _).
  pose proof (extends_ref_ok _ _ _ HeL HwA) as HwA1.
  destruct (copy_map_spec _ _ _ _ HwA1 E2) as (HA & HeA & HnA & HokA & _).
  split.
  - repeat split; simpl.
    + by eapply extends_trans.
    + unfold wf_config. simpl.
      by rewrite (extends_ref_ok h1 h2 rl HeA HokL), HokA.
    + rewrite distinct_refs_sym. by eapply new_ref_distinct.
    + exact HnL.
    + by eapply extends_new_ref.
  - unfold view. simpl.
    rewrite (extends_deref h1 h2 rl HeA HokL), HL, HA.
    by rewrite (extends_deref h h1 _ HeL HwA).
Qed.

Lemma blob_empty_test (s : string) :
  negb (String.length s =? 0)%nat = negb (String.eqb s "").
Proof. by destruct s. Qed.

Section GetConfig_properties.
Context `{U : Unmarshaler}.

(** [GetConfig] computes the layers of the specification on a working copy
    of its own. *)
Lemma GetConfig_spec (h h' : heap) (provider : AlertProvider)
    (group : string) (alert : Alert) (cfg : option Config)
    (err : option error) :
  wf_provider h provider = true ->
  GetConfig h provider group alert = (h', (cfg, err)) ->
  extends h h'
  /\ (view h' <$> cfg, err) = effective_config h provider group alert
  /\ (forall c, cfg = Some c -> working_copy h h' c).
Proof.
  intros Hwp. apply andb_prop in Hwp as [Hwd Hwo].
  unfold GetConfig, effective_config.
  destruct (copy_map h (ExtraLabels (DefaultConfig provider)))
    as [h1 rl] eqn:E1.
  destruct (copy_map h1 (ExtraAnnotations (DefaultConfig provider)))
    as [h2 ra] eqn:E2.
  destruct (copies_working_copy _ _ _ _ _ _ Hwd E1 E2) as [Hwc2 Hv2].
  destruct (merge_group h2 _ group (Overrides provider)) as [h3 cfg3] eqn:E3.
  destruct (merge_group_working_copy _ _ _ _ _ _ _ Hwc2 Hwo E3)
    as [Hwc3 Hv3].
  rewrite Hv2 in Hv3. rewrite <- Hv3.
  rewrite blob_empty_test.
  destruct (String.eqb (ProviderOverride alert) ""); simpl.
  - destruct (Validate cfg3) as [c e] eqn:EV. intros [= <- <- <-].
    destruct (Validate_view h3 _ _ _ EV) as (HV & HL & HA).
    rewrite HV. split; [apply Hwc3|]. split; [done|].
    intros c' [= <-].
    destruct Hwc3 as (He & Hw & Hd & HnL & HnA).
    unfold working_copy, wf_config. by rewrite HL, HA.
  - destruct (yaml_Unmarshal (ProviderOverride alert)) as [parsed|cause].
    + destruct (alloc_parsed h3 parsed) as [h4 o] eqn:E4.
      destruct (Merge h4 cfg3 o) as [h5 cfg5] eqn:E5.
      destruct (Validate cfg5) as [c e] eqn:EV. intros [= <- <- <-].
      destruct (alloc_parsed_spec _ _ _ _ E4)
        as (Hvo & He4 & Hwo4 & HnoL & HnoA).
      pose proof (working_copy_extends _ _ _ _ Hwc3 He4) as Hwc4.
      assert (Hd : distinct_refs (ExtraLabels cfg3) (ExtraAnnotations o)
                   = true).
      { rewrite distinct_refs_sym. eapply new_ref_distinct; [exact HnoA|].
        destruct Hwc3 as (_ & Hw & _). unfold wf_config in Hw.
        by apply andb_prop in Hw as [? _]. }
      destruct (Merge_working_copy _ _ _ _ _ _ Hwc4 Hwo4 Hd E5)
        as [Hwc5 Hv5].
      destruct (Validate_view h5 _ _ _ EV) as (HV & HL & HA).
      rewrite Hvo in Hv5.
      assert (Hv43 : view h4 cfg3 = view h3 cfg3).
      { apply extends_view; [done|]. apply Hwc3. }
      rewrite Hv43 in Hv5. rewrite <- Hv5, HV.
      split; [apply Hwc5|]. split; [done|].
      intros c' [= <-].
      destruct Hwc5 as (He & Hw & Hd5 & HnL & HnA).
      unfold working_copy, wf_config. by rewrite HL, HA.
    + intros [= <- <- <-]. split; [apply Hwc3|]. split; [done|].
      intros c' [=].
Qed.

End GetConfig_properties.

(** ** Precedence of the layers *)

Lemma MergeV_no_layer (v : ConfigView) : MergeV v no_layer = v.
Proof.
  destruct v. unfold MergeV, no_layer. simpl.
  by rewrite !(left_id_L ∅ (∪)).
Qed.

Lemma lookup_union_chain (a g d : gmap string string) (k : string) :
  (a ∪ (g ∪ d)) !! k =
    match a !! k with
    | Some v => Some v
    | None => match g !! k with
              | Some v => Some v
              | None => d !! k
              end
    end.
Proof.
  rewrite !lookup_union.
  destruct (a !! k), (g !! k), (d !! k); done.
Qed.

(** [Validate] keeps every field that is set. *)
Lemma ValidateV_keeps (m v : ConfigView) (err : option error) :
  ValidateV m = (v, err) ->
  vURL v = vURL m
  /\ vExtraLabels v = vExtraLabels m
  /\ vExtraAnnotations v = vExtraAnnotations m
  /\ vClientConfig v = vClientConfig m
  /\ (vDefaultSeverity m <> "" -> vDefaultSeverity v = vDefaultSeverity m)
  /\ (vTimeout m <> 0 -> vTimeout v = vTimeout m).
Proof.
  unfold ValidateV.
  destruct (String.length (vURL m) =? 0)%nat; intros [= <- <-]; simpl.
  - repeat split; done.
  - repeat split; try done.
    + intros Hs.
      destruct (String.length (vDefaultSeverity m) =? 0)%nat eqn:E; [|done].
      by apply length_zero_empty in E.
    + intros Ht. by destruct (Z.eqb_spec (vTimeout m) 0).
Qed.

(** Default, group layer and alert layer merged in this order, then
    validated. *)
Lemma layers_precedence (d g a v : ConfigView) (err : option error) :
  ValidateV (MergeV (MergeV d g) a) = (v, err) ->
  precedence d g a v.
Proof.
  intros HV. unfold precedence.
  destruct (ValidateV_keeps _ _ _ HV) as (HU & HL & HA & HC & HS & HT).
  clear HV. simpl in *.
  split; [|split; [|split; [|split; [|split; [|split; [|split; [|split;
    [|split; [|split; [|split; [|split; [|split]]]]]]]]]]]].
  - intros Ha. by rewrite HU, (proj2 (length_pos_nonempty _) Ha).
  - intros Ha Hg.
    by rewrite HU, Ha, (proj2 (length_pos_nonempty _) Hg).
  - intros Ha Hg. by rewrite HU, Ha, Hg.
  - intros Ha. rewrite (proj2 (length_pos_nonempty _) Ha) in HS.
    by apply HS.
  - intros Ha Hg.
    rewrite Ha, (proj2 (length_pos_nonempty _) Hg) in HS. by apply HS.
  - intros Ha Hg Hd. rewrite Ha, Hg in HS. by apply HS.
  - intros Ha. rewrite (proj2 (Z.ltb_lt _ _) Ha) in HT. apply HT. lia.
  - intros Ha Hg.
    rewrite (proj2 (Z.ltb_ge _ _) Ha), (proj2 (Z.ltb_lt _ _) Hg) in HT.
    apply HT. lia.
  - intros Ha Hg Hd.
    rewrite (proj2 (Z.ltb_ge _ _) Ha), (proj2 (Z.ltb_ge _ _) Hg) in HT.
    by apply HT.
  - intros Ha. rewrite HC. by destruct (vClientConfig a).
  - intros Ha Hg. rewrite HC, Ha. by destruct (vClientConfig g).
  - intros Ha Hg. by rewrite HC, Ha, Hg.
  - intros k. by rewrite HL, lookup_union_chain.
  - intros k. by rewrite HA, lookup_union_chain.
Qed.

Section GetConfig_layers.
Context `{U : Unmarshaler}.

(** The specification's description, as three merged layers. *)
Lemma effective_config_layers (h : heap) (provider : AlertProvider)
    (group : string) (alert : Alert) (v : ConfigView) (err : option error) :
  effective_config h provider group alert = (Some v, err) ->
  ValidateV
    (MergeV (MergeV (view h (DefaultConfig provider))
                    (group_layer h provider group))
            (alert_layer alert)) = (v, err).
Proof.
  unfold effective_config, group_layer, alert_layer.
  set (d := view h (DefaultConfig provider)).
  assert (Hg : match first_match group (Overrides provider) with
               | Some o => MergeV d (view h (OverrideConfig o))
               | None => d
               end
               = MergeV d match first_match group (Overrides provider) with
                          | Some o => view h (OverrideConfig o)
                          | None => no_layer
                          end).
  { destruct (first_match group (Overrides provider));
      by rewrite ?MergeV_no_layer. }
  rewrite Hg. clear Hg.
  destruct (String.eqb (ProviderOverride alert) "").
  - rewrite MergeV_no_layer.
    destruct (ValidateV _) as [v' e']. by intros [= <- <-].
  - destruct (yaml_Unmarshal (ProviderOverride alert)); [|done].
    destruct (ValidateV _) as [v' e']. by intros [= <- <-].
Qed.

End GetConfig_layers.

(** ** GetConfig *)

(** The first match does not depend on the overrides declared after it. *)
Lemma first_match_first (group : string) (pre post : list Override)
    (o : Override) :
  Forall (fun o' => Group o' <> group) pre ->
  Group o = group ->
  first_match group (pre ++ o :: post)%list = Some o.
Proof.
  unfold first_match. intros Hpre Ho.
  induction Hpre as [|o' pre Hne _ IH]; simpl.
  - by rewrite <- Ho, String.eqb_refl.
  - destruct (String.eqb_spec group (Group o')); [congruence|done].
Qed.

Lemma first_match_exists (group : string) (overrides : list Override) :
  (exists o, o ∈ overrides /\ Group o = group) ->
  exists pre o post,
    overrides = (pre ++ o :: post)%list
    /\ Forall (fun o' => Group o' <> group) pre
    /\ Group o = group.
Proof.
  induction overrides as [|o' rest IH]; intros (o & Hin & Ho).
  - by apply elem_of_nil in Hin.
  - destruct (String.eqb_spec (Group o') group) as [Heq|Hne].
    + by exists [], o', rest.
    + apply elem_of_cons in Hin as [->|Hin]; [done|].
      destruct IH as (pre & o1 & post & -> & Hpre & Ho1); [eauto|].
      exists (o' :: pre), o1, post. by repeat constructor.
Qed.

Lemma first_match_wf (h : heap) (group : string)
    (overrides : list Override) (o : Override) :
  forallb (fun o => wf_config h (OverrideConfig o)) overrides = true ->
  first_match group overrides = Some o ->
  wf_config h (OverrideConfig o) = true.
Proof.
  unfold first_match. intros Hall Hf.
  apply find_some in Hf as [Hin _].
  by apply (proj1 (forallb_forall _ _) Hall).
Qed.

Section GetConfig_claims.
Context `{U : Unmarshaler}.

(** The objects of the provider are not needed beyond their contents. *)
Lemma effective_config_extends (h h1 : heap) (provider : AlertProvider)
    (group : string) (alert : Alert) :
  extends h h1 ->
  wf_provider h provider = true ->
  effective_config h1 provider group alert
  = effective_config h provider group alert.
Proof.
  intros He Hwp. apply andb_prop in Hwp as [Hwd Hwo].
  unfold effective_config.
  rewrite (extends_view h h1 _ He Hwd).
  destruct (first_match group (Overrides provider)) as [o|] eqn:Hf; [|done].
  by rewrite (extends_view h h1 _ He (first_match_wf _ _ _ _ Hwo Hf)).
Qed.

Lemma wf_provider_extends (h h1 : heap) (provider : AlertProvider) :
  extends h h1 ->
  wf_provider h provider = true ->
  wf_provider h1 provider = true.
Proof.
  unfold wf_provider. intros He Hwp. apply andb_prop in Hwp as [Hwd Hwo].
  rewrite (extends_wf_config h h1 _ He Hwd). simpl.
  apply forallb_forall. intros o Hin.
  apply (extends_wf_config h h1 _ He).
  by apply (proj1 (forallb_forall _ _) Hwo).
Qed.

(** The result of [GetConfig] as three merged layers. *)
Lemma GetConfig_as_layers (h h' : heap) (provider : AlertProvider)
    (group : string) (alert : Alert) (cfg : option Config)
    (err : option error) :
  wf_provider h provider = true ->
  GetConfig h provider group alert = (h', (cfg, err)) ->
  (view h' <$> cfg, err) = effective_config h provider group alert
  /\ (forall pre o post,
        Overrides provider = (pre ++ o :: post)%list ->
        Forall (fun o' => Group o' <> group) pre ->
        Group o = group ->
        group_layer h provider group = view h (OverrideConfig o))
  /\ (forall c, cfg = Some c ->
        ValidateV
          (MergeV (MergeV (view h (DefaultConfig provider))
                          (group_layer h provider group))
                  (alert_layer alert)) = (view h' c, err)).
Proof.
  intros Hwp HG.
  destruct (GetConfig_spec _ _ _ _ _ _ _ Hwp HG) as (_ & Heff & _).
  split; [done|]. split.
  - intros pre o post Hov Hpre Ho. unfold group_layer.
    by rewrite Hov, (first_match_first _ _ _ _ Hpre Ho).
  - intros c ->. simpl in Heff. symmetry in Heff.
    by apply effective_config_layers in Heff.
Qed.

(** C1 (amended). For every provider (whose maps are objects of the
    store), group name and alert, the configuration [GetConfig] returns
    denotes what the specification describes: the default configuration,
    merged with the first override (in declaration order) whose group is
    the given one, whatever overrides are declared after it, merged with
    the decoded override document of the alert when the alert carries one,
    and validated; when the document does not decode, the decoder's error
    is returned.  In the result a field that is present in the alert's
    document (a non-empty URL or severity, a strictly positive timeout, a
    client configuration, a key of a map) is the alert's, otherwise a field
    present in the group's override is the group's, otherwise a field set
    by the default configuration is the default's; for the two map fields
    this holds key by key.  A timeout of the alert's document that is zero
    or negative leaves the group's. *)
Theorem GetConfig_layers_in_order (h h' : heap) (provider : AlertProvider)
    (group : string) (alert : Alert) (cfg : option Config)
    (err : option error) :
  wf_provider h provider = true ->
  GetConfig h provider group alert = (h', (cfg, err)) ->
  (view h' <$> cfg, err) = effective_config h provider group alert
  /\ (forall pre o post,
        Overrides provider = (pre ++ o :: post)%list ->
        Forall (fun o' => Group o' <> group) pre ->
        Group o = group ->
        group_layer h provider group = view h (OverrideConfig o))
  /\ (forall c, cfg = Some c ->
        ValidateV
          (MergeV (MergeV (view h (DefaultConfig provider))
                          (group_layer h provider group))
                  (alert_layer alert)) = (view h' c, err)
        /\ precedence (view h (DefaultConfig provider))
             (group_layer h provider group) (alert_layer alert)
             (view h' c)).
Proof.
  intros Hwp HG.
  destruct (GetConfig_as_layers _ _ _ _ _ _ _ Hwp HG)
    as (Heff & Hg & Hl).
  split; [done|]. split; [done|].
  intros c Hc. split; [by apply Hl|].
  eapply layers_precedence. by apply Hl.
Qed.

(** With no document, or with one that decodes, the specification's
    description yields a configuration. *)
Lemma effective_config_some (h : heap) (provider : AlertProvider)
    (group : string) (alert : Alert) :
  ProviderOverride alert = ""
  \/ (exists parsed, yaml_Unmarshal (ProviderOverride alert) = inl parsed) ->
  exists v e, effective_config h provider group alert = (Some v, e).
Proof.
  intros Hdoc. unfold effective_config.
  destruct (String.eqb_spec (ProviderOverride alert) "") as [He|Hne].
  - destruct (ValidateV _) as [v e]. eauto.
  - destruct Hdoc as [He|(parsed & ->)]; [done|].
    destruct (ValidateV _) as [v e]. eauto.
Qed.

(** C10. The group test is string equality and the empty name is a name
    like any other: when the overrides contain an entry whose group is
    empty, a call with the empty group name matches the first such entry
    and merges its configuration over the defaults.  What [GetConfig]
    returns is then the validated merge of the defaults, that entry and
    the alert's document; a configuration is returned unless the document
    fails to decode. *)
Theorem GetConfig_empty_group_matches (h h' : heap)
    (provider : AlertProvider) (alert : Alert) (cfg : option Config)
    (err : option error) :
  wf_provider h provider = true ->
  (exists o, o ∈ Overrides provider /\ Group o = "") ->
  GetConfig h provider "" alert = (h', (cfg, err)) ->
  exists pre o post,
    Overrides provider = (pre ++ o :: post)%list
    /\ Forall (fun o' => Group o' <> "") pre
    /\ Group o = ""
    /\ first_match "" (Overrides provider) = Some o
    /\ (view h' <$> cfg, err)
       = (if String.eqb (ProviderOverride alert) "" then
            let '(v, e) :=
              ValidateV (MergeV (view h (DefaultConfig provider))
                                (view h (OverrideConfig o))) in
            (Some v, e)
          else
            match yaml_Unmarshal (ProviderOverride alert) with
            | inr cause => (None, Some (ErrUnmarshal cause))
            | inl parsed =>
                let '(v, e) :=
                  ValidateV
                    (MergeV (MergeV (view h (DefaultConfig provider))
                                    (view h (OverrideConfig o)))
                            (parsed_view parsed)) in
                (Some v, e)
            end)
    /\ (ProviderOverride alert = ""
        \/ (exists parsed,
              yaml_Unmarshal (ProviderOverride alert) = inl parsed) ->
        exists c,
          cfg = Some c
          /\ ValidateV
               (MergeV (MergeV (view h (DefaultConfig provider))
                               (view h (OverrideConfig o)))
                       (alert_layer alert)) = (view h' c, err)).
Proof.
  intros Hwp Hex HG.
  destruct (first_match_exists _ _ Hex) as (pre & o & post & Hov & Hpre & Ho).
  assert (Hfm : first_match "" (Overrides provider) = Some o).
  { by rewrite Hov, (first_match_first _ _ _ _ Hpre Ho). }
  destruct (GetConfig_as_layers h h' provider "" alert cfg err Hwp HG)
    as (Heff & Hg & Hl).
  exists pre, o, post. repeat split; try done.
  - rewrite Heff. unfold effective_config. by rewrite Hfm.
  - intros Hdoc.
    destruct (effective_config_some h provider "" alert Hdoc)
      as (v & e & Hsome).
    rewrite Hsome in Heff. injection Heff as Hv _.
    destruct cfg as [c|]; [|done].
    exists c. split; [done|].
    rewrite <- (Hg pre o post Hov Hpre Ho). by apply Hl.
Qed.

End GetConfig_claims.

(** The example provider, group "prod", an alert that sets the severity:
    the severity is the alert's, the labels are the default's and those of
    the first "prod" override, the URL is the default's. *)
Example GetConfig_example_prod :
  let '(h', (cfg, err)) :=
    GetConfig (H:=example_unmarshal) test_heap example_provider "prod"
      example_alert in
  err = None
  /\ (URL <$> cfg) = Some "http://base:9093"
  /\ (DefaultSeverity <$> cfg) = Some "info"
  /\ (Timeout <$> cfg) = Some 10000000000
  /\ (map_to_list <$> (vExtraLabels <$> (view h' <$> cfg)))
     = Some [("environment", "test"); ("team", "platform")]
  /\ (map_to_list <$> (vExtraAnnotations <$> (view h' <$> cfg)))
     = Some [("runbook", "https://wiki.example.com")].
Proof. vm_compute. repeat split. Qed.

Example GetConfig_example_other_group :
  let '(h', (cfg, err)) :=
    GetConfig (H:=example_unmarshal) test_heap example_provider "other"
      (mkAlert None "") in
  err = None
  /\ (DefaultSeverity <$> cfg) = Some "critical"
  /\ (map_to_list <$> (vExtraLabels <$> (view h' <$> cfg)))
     = Some [("team", "platform")].
Proof. vm_compute. repeat split. Qed.

Example GetConfig_example_bad_document :
  snd (GetConfig (H:=example_unmarshal) test_heap example_provider "prod"
         (mkAlert None "url: ["))
  = (None, Some (ErrUnmarshal "yaml: unmarshal errors")).
Proof. vm_compute. reflexivity. Qed.

Lemma GetConfig_layers_in_order_witness :
  let r := GetConfig (H:=example_unmarshal) test_heap example_provider
             "prod" example_alert in
  (view r.1 <$> r.2.1, r.2.2)
  = effective_config (H:=example_unmarshal) test_heap example_provider
      "prod" example_alert.
Proof.
  refine (proj1 (GetConfig_layers_in_order (U:=example_unmarshal)
                   test_heap _ example_provider "prod" example_alert _ _
                   _ _)).
  - reflexivity.
  - destruct (GetConfig _ _ _ _) as [h' [cfg err]]. reflexivity.
Defined.

Lemma GetConfig_empty_group_matches_witness :
  exists c,
    (GetConfig (H:=example_unmarshal) test_heap example_provider ""
       (mkAlert None "")).2.1 = Some c
    /\ URL c = "http://nogroup:9093".
Proof.
  destruct (GetConfig_empty_group_matches (U:=example_unmarshal)
              test_heap
              (GetConfig (H:=example_unmarshal) test_heap example_provider
                 "" (mkAlert None "")).1
              example_provider (mkAlert None "")
              (GetConfig (H:=example_unmarshal) test_heap example_provider
                 "" (mkAlert None "")).2.1
              (GetConfig (H:=example_unmarshal) test_heap example_provider
                 "" (mkAlert None "")).2.2)
    as (pre & o & post & _ & _ & _ & Hfm & _ & Hc).
  - reflexivity.
  - exists (mkOverride "" (mkConfig "http://nogroup:9093" 0 "" None None None)).
    split; [|reflexivity].
    unfold example_provider. simpl.
    rewrite !elem_of_cons. auto.
  - by destruct (GetConfig _ _ _ _) as [h' [cfg err]].
  - destruct Hc as (c & Hc & HV); [by left|].
    exists c. split; [done|].
    injection Hfm as <-.
    exact (eq_sym (f_equal (fun x => vURL x.1) HV)).
Defined.

(** C1, as stated, fails for the timeout.  An alert document that sets a
    timeout of -1ns sets the field, yet the timeout of the result is the
    3 seconds of the group's override: [Merge] takes a timeout only when
    it is positive. *)
Lemma GetConfig_negative_alert_timeout :
  wf_provider ∅ timeout_provider = true
  /\ vTimeout (alert_layer (H:=timeout_unmarshal) timeout_alert) = -1
  /\ vTimeout (group_layer ∅ timeout_provider "prod") = 3000000000
  /\ (Timeout <$>
        (GetConfig (H:=timeout_unmarshal) ∅ timeout_provider "prod"
           timeout_alert).2.1) = Some 3000000000
  /\ (Timeout <$>
        (GetConfig (H:=timeout_unmarshal) ∅ timeout_provider "prod"
           timeout_alert).2.1) <> Some (-1)
  /\ (GetConfig (H:=timeout_unmarshal) ∅ timeout_provider "prod"
        timeout_alert).2.2 = None.
Proof. vm_compute. repeat split. discriminate. Qed.

(** ** GetConfig and the provider's stored configuration *)

Lemma elem_of_refs (c : Config) (l : positive) :
  l ∈ refs c <-> ExtraLabels c = Some l \/ ExtraAnnotations c = Some l.
Proof.
  unfold refs. rewrite elem_of_app.
  destruct (ExtraLabels c) as [x|], (ExtraAnnotations c) as [y|]; simpl;
    rewrite ?list_elem_of_singleton, ?elem_of_nil;
    split; intros [Hl|Hl]; try done; try (injection Hl as ->); subst; auto.
Qed.

Lemma wf_config_refs (h : heap) (c : Config) (l : positive) :
  wf_config h c = true -> l ∈ refs c -> is_Some (h !! l).
Proof.
  unfold wf_config. intros Hw Hl. apply andb_prop in Hw as [HL HA].
  apply elem_of_refs in Hl as [Hl|Hl].
  - exact (proj1 (ref_ok_spec _ _) HL l Hl).
  - exact (proj1 (ref_ok_spec _ _) HA l Hl).
Qed.

Lemma wf_provider_refs (h : heap) (p : AlertProvider) (l : positive) :
  wf_provider h p = true -> l ∈ provider_refs p -> is_Some (h !! l).
Proof.
  unfold wf_provider, provider_refs. intros Hw Hl.
  apply andb_prop in Hw as [Hd Ho].
  apply elem_of_app in Hl as [Hl|Hl]; [by eapply wf_config_refs|].
  apply list_elem_of_In, in_concat in Hl as (rs & Hrs & Hl).
  apply in_map_iff in Hrs as (o & <- & Hin).
  eapply wf_config_refs; [|by apply list_elem_of_In].
  by apply (proj1 (forallb_forall _ _) Ho).
Qed.

Lemma working_copy_refs_new (h0 h : heap) (c : Config) (l : positive) :
  working_copy h0 h c -> l ∈ refs c -> h0 !! l = None.
Proof.
  intros (_ & _ & _ & HnL & HnA) Hl.
  apply elem_of_refs in Hl as [Hl|Hl]; auto.
Qed.

Section GetConfig_frame.
Context `{U : Unmarshaler}.

(** C7. [GetConfig] has no effect on the provider: every map object that
    existed before the call, so every map of the stored default
    configuration and of the overrides, has the contents it had; the maps
    of the returned configuration are objects made by the call, none of
    them an object the provider refers to, and they are deep copies: they
    hold the entries of the default configuration's maps, under those of
    the group's override and of the alert's document; and a second call
    with the same
    inputs returns the same error and a configuration equal field by field
    (maps by contents) whose maps are other objects than those of the
    first result, which it leaves as they were. *)
Theorem GetConfig_leaves_provider (h h1 h2 : heap)
    (provider : AlertProvider) (group : string) (alert : Alert)
    (cfg1 cfg2 : option Config) (err1 err2 : option error) :
  wf_provider h provider = true ->
  GetConfig h provider group alert = (h1, (cfg1, err1)) ->
  GetConfig h1 provider group alert = (h2, (cfg2, err2)) ->
  (forall l, is_Some (h !! l) -> h1 !! l = h !! l)
  /\ view h1 (DefaultConfig provider) = view h (DefaultConfig provider)
  /\ Forall (fun o => view h1 (OverrideConfig o) = view h (OverrideConfig o))
       (Overrides provider)
  /\ (forall c l, cfg1 = Some c -> l ∈ refs c ->
        h !! l = None /\ l ∉ provider_refs provider)
  /\ (forall c, cfg1 = Some c ->
        deref h1 (ExtraLabels c)
        = vExtraLabels (alert_layer alert)
            ∪ (vExtraLabels (group_layer h provider group)
                 ∪ deref h (ExtraLabels (DefaultConfig provider)))
        /\ deref h1 (ExtraAnnotations c)
           = vExtraAnnotations (alert_layer alert)
               ∪ (vExtraAnnotations (group_layer h provider group)
                    ∪ deref h (ExtraAnnotations (DefaultConfig provider))))
  /\ err2 = err1
  /\ (view h2 <$> cfg2) = (view h1 <$> cfg1)
  /\ (view h2 <$> cfg1) = (view h1 <$> cfg1)
  /\ (forall c1 c2 l, cfg1 = Some c1 -> cfg2 = Some c2 ->
        l ∈ refs c1 -> l ∉ refs c2).
Proof.
  intros Hwp HG1 HG2.
  destruct (GetConfig_spec _ _ _ _ _ _ _ Hwp HG1) as (He1 & Heff1 & Hwc1).
  pose proof (wf_provider_extends _ _ _ He1 Hwp) as Hwp1.
  destruct (GetConfig_spec _ _ _ _ _ _ _ Hwp1 HG2) as (He2 & Heff2 & Hwc2).
  rewrite (effective_config_extends _ _ _ _ _ He1 Hwp) in Heff2.
  rewrite <- Heff1 in Heff2. injection Heff2 as Hv Herr.
  pose proof Hwp as Hwp'. apply andb_prop in Hwp' as [Hwd Hwo].
  split; [exact He1|]. split; [by apply extends_view|].
  split; [|split; [|split; [|split; [|split; [|split]]]]]; try done.
  - apply Forall_forall. intros o Hin. apply extends_view; [done|].
    apply (proj1 (forallb_forall _ _) Hwo). by apply list_elem_of_In.
  - intros c l Hc Hl.
    pose proof (working_copy_refs_new _ _ _ _ (Hwc1 c Hc) Hl) as Hnew.
    split; [done|]. intros Hp.
    destruct (wf_provider_refs _ _ _ Hwp Hp) as [? ?]. congruence.
  - intros c Hc.
    destruct (GetConfig_as_layers _ _ _ _ _ _ _ Hwp HG1) as (_ & _ & Hl).
    destruct (ValidateV_keeps _ _ _ (Hl c Hc)) as (_ & HL & HA & _).
    by split.
  - destruct cfg1 as [c1|]; [|done]. simpl. f_equal.
    apply extends_view; [done|]. apply (Hwc1 c1 eq_refl).
  - intros c1 c2 l Hc1 Hc2 Hl1 Hl2.
    pose proof (working_copy_refs_new _ _ _ _ (Hwc2 c2 Hc2) Hl2) as Hnew.
    destruct (Hwc1 c1 Hc1) as (_ & Hw1 & _).
    destruct (wf_config_refs _ _ _ Hw1 Hl1) as [? ?]. congruence.
Qed.

End GetConfig_frame.

Lemma GetConfig_leaves_provider_witness :
  exists c,
    (GetConfig (H:=example_unmarshal) test_heap example_provider "prod"
       example_alert).2.1 = Some c
    /\ deref
         (GetConfig (H:=example_unmarshal) test_heap example_provider "prod"
            example_alert).1 (ExtraLabels c)
       = vExtraLabels (alert_layer (H:=example_unmarshal) example_alert)
           ∪ (vExtraLabels (group_layer test_heap example_provider "prod")
                ∪ deref test_heap (ExtraLabels (DefaultConfig example_provider))).
Proof.
  set (r1 := GetConfig (H:=example_unmarshal) test_heap example_provider
               "prod" example_alert).
  set (r2 := GetConfig (H:=example_unmarshal) r1.1 example_provider
               "prod" example_alert).
  destruct (GetConfig_leaves_provider (U:=example_unmarshal)
              test_heap r1.1 r2.1 example_provider "prod" example_alert
              r1.2.1 r2.2.1 r1.2.2 r2.2.2)
    as (_ & _ & _ & _ & Hcopy & _).
  - reflexivity.
  - subst r2 r1.
    by destruct (GetConfig test_heap example_provider "prod" example_alert)
      as [h' [cfg err]].
  - subst r2.
    by destruct (GetConfig r1.1 example_provider "prod" example_alert)
      as [h' [cfg err]].
  - destruct (r1.2.1) as [c|] eqn:E.
    + exists c. split; [done|]. by apply Hcopy.
    + by vm_compute in E.
Defined.

(** ** The request target *)

Lemma length_append (p s : string) :
  String.length (p ++ s) = (String.length p + String.length s)%nat.
Proof. induction p as [|c p IH]; simpl; [done|]. by rewrite IH. Qed.

Lemma substring_all (s : string) : substring 0 (String.length s) s = s.
Proof. induction s as [|c s IH]; simpl; [done|]. by rewrite IH. Qed.


Lemma substring_append_skip (p s : string) (n m : nat) :
  substring (String.length p + n) m (p ++ s) = substring n m s.
Proof. induction p as [|c p IH]; simpl; done. Qed.

Lemma append_cons (c : ascii) (a b : string) :
  String c a ++ b = String c (a ++ b).
Proof. reflexivity. Qed.

Lemma substring_split (s : string) (n : nat) :
  (n <= String.length s)%nat ->
  s = substring 0 n s ++ substring n (String.length s - n) s.
Proof.
  revert n. induction s as [|c s IH]; intros [|n] Hn; simpl in *;
    try lia; try done.
  - by rewrite substring_all.
  - rewrite append_cons. f_equal. apply IH. lia.
Qed.

Lemma strings_HasSuffix_spec (s suffix : string) :
  strings_HasSuffix s suffix = true <-> exists p, s = p ++ suffix.
Proof.
  unfold strings_HasSuffix. split.
  - intros Hs. apply andb_prop in Hs as [Hlen Heq].
    apply Nat.leb_le in Hlen. apply String.eqb_eq in Heq.
    exists (substring 0 (String.length s - String.length suffix) s).
    assert (Hsplit := substring_split s
              (String.length s - String.length suffix) ltac:(lia)).
    replace (String.length s - (String.length s - String.length suffix))%nat
      with (String.length suffix) in Hsplit by lia.
    by rewrite Heq in Hsplit.
  - intros [p ->]. rewrite length_append.
    replace (String.length p + String.length suffix - String.length suffix)%nat
      with (String.length p + 0)%nat by lia.
    rewrite substring_append_skip, substring_all, String.eqb_refl.
    rewrite andb_true_r. apply Nat.leb_le. lia.
Qed.



(** The alerts path does not end in a slash. *)
Lemma alerts_path_no_slash (p : string) :
  strings_HasSuffix (p ++ "/api/v2/alerts") "/" = false.
Proof.
  unfold strings_HasSuffix. rewrite length_append. simpl.
  replace (String.length p + 14 - 1)%nat
    with (String.length p + 13)%nat by lia.
  by rewrite substring_append_skip, andb_false_r.
Qed.

Example alerts_url_base : alerts_url "http://am:9093" = "http://am:9093/api/v2/alerts".
Proof. reflexivity. Qed.

Example alerts_url_slash : alerts_url "http://am:9093/" = "http://am:9093/api/v2/alerts".
Proof. reflexivity. Qed.

Example alerts_url_two_slashes :
  alerts_url "http://am:9093//" = "http://am:9093//api/v2/alerts".
Proof. reflexivity. Qed.


(** ** buildAlert *)

Example buildAlert_test_firing :
  let firing := buildAlert build_heap build_config build_endpoint
                  build_alert build_result false 1700000000 in
  Labels firing !! "alertname" = Some "GatusEndpointDown"
  /\ Labels firing !! "instance" = Some "https://api.example.com/health"
  /\ Labels firing !! "endpoint" = Some "Test API"
  /\ Labels firing !! "group" = Some "production"
  /\ Labels firing !! "severity" = Some "warning"
  /\ Labels firing !! "environment" = Some "test"
  /\ Annotations firing !! "runbook" = Some "https://wiki.example.com/runbook"
  /\ Annotations firing !! "description"
     = Some "Endpoint Test API (https://api.example.com/health) has failed health checks. Errors: connection timeout, DNS resolution failed"
  /\ Annotations firing !! "alert_description" = Some "API health check failed"
  /\ EndsAt firing = zero_Time.
Proof. vm_compute. repeat split. Qed.

Example buildAlert_test_resolved :
  let resolved := buildAlert build_heap build_config build_endpoint
                    build_alert build_result true 1700000000 in
  EndsAt resolved = 1700000000
  /\ Annotations resolved !! "summary"
     = Some "Endpoint Test API is now healthy".
Proof. vm_compute. repeat split. Qed.

(** The annotations before the extra annotations are laid over them. *)
Lemma buildAlert_annotations (h : heap) (cfg : Config) (ep : Endpoint)
    (alert : Alert) (result : Result) (resolved : bool) (now : Time)
    (k : string) :
  deref h (ExtraAnnotations cfg) !! k = None ->
  k <> "alert_description" ->
  Annotations (buildAlert h cfg ep alert result resolved now) !! k =
    if resolved then
      (<["description" := "Endpoint " ++ EpName ep ++ " (" ++ EpURL ep
          ++ ") has recovered and is now passing health checks"]>
        (<["summary" := "Endpoint " ++ EpName ep ++ " is now healthy"]>
          (∅ : gmap string string))) !! k
    else
      (<["description" :=
           if (0 <? length (Errors result))%nat
           then ("Endpoint " ++ EpName ep ++ " (" ++ EpURL ep
                   ++ ") has failed health checks")
                  ++ ". Errors: " ++ strings_Join (Errors result) ", "
           else "Endpoint " ++ EpName ep ++ " (" ++ EpURL ep
                  ++ ") has failed health checks"]>
        (<["summary" := "Endpoint " ++ EpName ep ++ " is down"]>
          (∅ : gmap string string))) !! k.
Proof.
  intros Hextra Hk. unfold buildAlert.
  destruct resolved; simpl; rewrite range_insert_union, lookup_union, Hextra;
    rewrite (left_id_L None union);
    destruct (negb (String.eqb (GetDescription alert) ""));
    by rewrite ?(lookup_insert_ne _ "alert_description" k) by done.
Qed.

Lemma buildAlert_annotations_extra (h : heap) (cfg : Config) (ep : Endpoint)
    (alert : Alert) (result : Result) (resolved : bool) (now : Time)
    (k v : string) :
  deref h (ExtraAnnotations cfg) !! k = Some v ->
  Annotations (buildAlert h cfg ep alert result resolved now) !! k = Some v.
Proof.
  intros Hextra. unfold buildAlert.
  destruct resolved; simpl;
    by rewrite range_insert_union, lookup_union, Hextra, union_Some_l.
Qed.

(** C5, as stated, fails: the extra annotations of the configuration are
    laid over the fixed ones, so a configured "summary" replaces the
    summary of the payload. *)
Lemma buildAlert_summary_overwritten :
  Annotations (buildAlert summary_heap summary_config build_endpoint
                 build_alert build_result false 1700000000) !! "summary"
  = Some "see the runbook"
  /\ Some "see the runbook" <> Some ("Endpoint " ++ EpName build_endpoint ++ " is down").
Proof. vm_compute. split; [reflexivity|discriminate]. Qed.

(** C5 (amended). For every input, [buildAlert] with [resolved = false]
    returns a payload whose [EndsAt] is the zero instant; unless the extra
    annotations of the configuration carry the key, its summary is
    "Endpoint <name> is down" and its description is
    "Endpoint <name> (<url>) has failed health checks", followed by
    ". Errors: " and the error strings joined by ", " exactly when the
    result carries at least one error.  With [resolved = true] the payload
    has [EndsAt] equal to [StartsAt], the instant of the call, and, unless
    the extra annotations carry the key, the summary
    "Endpoint <name> is now healthy".  An annotation whose key the extra
    annotations carry has the configured value. *)
Theorem buildAlert_firing_and_resolved (h : heap) (cfg : Config)
    (ep : Endpoint) (alert : Alert) (result : Result) (now : Time) :
  let firing := buildAlert h cfg ep alert result false now in
  let resolved := buildAlert h cfg ep alert result true now in
  let extra := deref h (ExtraAnnotations cfg) in
  EndsAt firing = zero_Time
  /\ (extra !! "summary" = None ->
        Annotations firing !! "summary"
        = Some ("Endpoint " ++ EpName ep ++ " is down"))
  /\ (extra !! "description" = None -> Errors result = [] ->
        Annotations firing !! "description"
        = Some ("Endpoint " ++ EpName ep ++ " (" ++ EpURL ep
                  ++ ") has failed health checks"))
  /\ (extra !! "description" = None -> Errors result <> [] ->
        Annotations firing !! "description"
        = Some (("Endpoint " ++ EpName ep ++ " (" ++ EpURL ep
                   ++ ") has failed health checks")
                  ++ ". Errors: " ++ strings_Join (Errors result) ", "))
  /\ EndsAt resolved = now
  /\ StartsAt resolved = now
  /\ (extra !! "summary" = None ->
        Annotations resolved !! "summary"
        = Some ("Endpoint " ++ EpName ep ++ " is now healthy"))
  /\ (forall k v, extra !! k = Some v ->
        Annotations firing !! k = Some v
        /\ Annotations resolved !! k = Some v).
Proof.
  intros firing resolved extra. subst firing resolved extra.
  split; [done|].
  split; [|split; [|split; [|split; [|split; [|split]]]]]; try done.
  - intros Hx. by rewrite buildAlert_annotations.
  - intros Hx He. rewrite buildAlert_annotations by done.
    by rewrite He.
  - intros Hx He. rewrite buildAlert_annotations by done.
    destruct (Errors result); done.
  - intros Hx. by rewrite buildAlert_annotations.
  - intros k v Hx. by rewrite !(buildAlert_annotations_extra _ _ _ _ _ _ _ k v).
Qed.

(** ** The end-to-end scenario *)

Section Scenario.
Context `{U : Unmarshaler}.

(** C2. For a provider with URL "http://am:9093", nothing else configured
    and no overrides, and an alert without description or override
    document, [GetConfig] succeeds and the payload built for the endpoint
    "API" at "https://api/health" in group "prod", with [resolved = false]
    and no errors, has exactly the labels and annotations of the
    scenario. *)
Theorem scenario_labels_and_annotations (h : heap) (success : bool)
    (now : Time) :
  let provider :=
    mkAlertProvider (mkConfig "http://am:9093" 0 "" None None None) None [] in
  let ep := mkEndpoint "API" "https://api/health" "prod" in
  let alert := mkAlert None "" in
  exists cfg,
    GetConfig h provider (EpGroup ep) alert = (h, (Some cfg, None))
    /\ Labels (buildAlert h cfg ep alert (mkResult success []) false now)
       = {[ "alertname" := "GatusEndpointDown";
            "instance" := "https://api/health";
            "job" := "gatus";
            "severity" := "critical";
            "endpoint" := "API";
            "group" := "prod" ]}
    /\ Annotations (buildAlert h cfg ep alert (mkResult success []) false now)
       = {[ "summary" := "Endpoint API is down";
            "description" :=
              "Endpoint API (https://api/health) has failed health checks" ]}.
Proof.
  intros provider ep alert.
  exists (mkConfig "http://am:9093" 10000000000 "critical" None None None).
  split; [reflexivity|].
  unfold buildAlert. simpl.
  unfold range_insert. rewrite map_to_list_empty. simpl.
  split; apply map_eq; intros k; vm_compute; reflexivity.
Qed.

End Scenario.

(** ** Delivery *)

Example status_error_message :
  error_message (ErrStatus 503 "service unavailable")
  = "Alertmanager returned status 503: service unavailable".
Proof. reflexivity. Qed.

Section Delivery.
Context `{U : Unmarshaler} `{T : Transport}.

(** C8. For every response received during delivery (the payload was
    encoded, the request was created and the client returned the response),
    a status code outside [200,300) makes [sendToAlertmanager], and so
    [Send], return the error that carries the status code and the body of
    the response, with the message
    "Alertmanager returned status <code>: <body>"; a status code in
    [200,300) makes it return no error. *)
Theorem delivery_classifies_status (cfg : Config)
    (alerts : list AlertmanagerAlert) (jsonPayload : string)
    (resp : Response) :
  json_Marshal alerts = inl jsonPayload ->
  http_NewRequest (alerts_url (URL cfg)) = None ->
  http_Do (alerts_request cfg jsonPayload) = inl resp ->
  (StatusCode resp < 200 \/ 300 <= StatusCode resp ->
     sendToAlertmanager cfg alerts
     = Some (ErrStatus (StatusCode resp) (RespBody resp))
     /\ error_message (ErrStatus (StatusCode resp) (RespBody resp))
        = "Alertmanager returned status " ++ pretty (StatusCode resp)
            ++ ": " ++ RespBody resp)
  /\ (200 <= StatusCode resp < 300 -> sendToAlertmanager cfg alerts = None)
  /\ (forall h h1 provider ep alert result resolved now,
        GetConfig h provider (EpGroup ep) alert = (h1, (Some cfg, None)) ->
        alerts = [buildAlert h1 cfg ep alert result resolved now] ->
        Send h provider ep alert result resolved now
        = (h1, sendToAlertmanager cfg alerts)).
Proof.
  intros HM HR HD. unfold sendToAlertmanager. rewrite HM, HR, HD.
  split; [|split].
  - intros Hout. split; [|reflexivity].
    destruct (Z.ltb_spec (StatusCode resp) 200); [done|].
    destruct (Z.leb_spec 300 (StatusCode resp)); [done|lia].
  - intros Hin.
    destruct (Z.ltb_spec (StatusCode resp) 200); [lia|].
    destruct (Z.leb_spec 300 (StatusCode resp)); [lia|done].
  - intros h h1 provider ep alert result resolved now HG ->.
    unfold Send. rewrite HG. unfold sendToAlertmanager.
    by rewrite HM, HR, HD.
Qed.

End Delivery.

Lemma delivery_classifies_status_witness :
  sendToAlertmanager (H:=unavailable_transport) build_config []
  = Some (ErrStatus 503 "service unavailable")
  /\ error_message (ErrStatus 503 "service unavailable")
     = "Alertmanager returned status 503: service unavailable".
Proof.
  refine (proj1 (delivery_classifies_status (U:=example_unmarshal)
                   (T:=unavailable_transport) build_config [] "[]"
                   (mkResponse 503 "service unavailable") _ _ _) _).
  - reflexivity.
  - reflexivity.
  - reflexivity.
  - right. simpl. lia.
Defined.

(** [TestAlertProvider_Send]: a provider with only a URL, a server that
    answers 200. *)
Example Send_test_accepted :
  snd (Send (H:=example_unmarshal) (H0:=accepting_transport) ∅
         (mkAlertProvider
            (mkConfig "http://127.0.0.1:9093" 0 "" None None None) None [])
         (mkEndpoint "Test API" "https://api.example.com/health" "")
         (mkAlert (Some "Test alert") "")
         (mkResult false ["test error"]) false 1700000000)
  = None.
Proof. reflexivity. Qed.

Example Send_test_unavailable :
  snd (Send (H:=example_unmarshal) (H0:=unavailable_transport) ∅
         (mkAlertProvider
            (mkConfig "http://127.0.0.1:9093" 0 "" None None None) None [])
         (mkEndpoint "Test API" "https://api.example.com/health" "")
         (mkAlert (Some "Test alert") "")
         (mkResult false ["test error"]) false 1700000000)
  = Some (ErrStatus 503 "service unavailable").
Proof. reflexivity. Qed.

(** * Further properties of the provider *)

(** ** Validate *)

(** X1. A configuration that [Validate] accepts has, afterwards, a URL, a
    timeout other than zero and a default severity. *)
Theorem Validate_establishes_invariant (cfg cfg' : Config) :
  Validate cfg = (cfg', None) ->
  URL cfg' <> "" /\ Timeout cfg' <> 0 /\ DefaultSeverity cfg' <> "".
Proof.
  unfold Validate.
  destruct (String.length (URL cfg) =? 0)%nat eqn:EU; [done|].
  intros [= <-].
  assert (HU : URL cfg <> "").
  { intros HU. by rewrite (proj2 (length_zero_empty _) HU) in EU. }
  destruct (Z.eqb_spec (Timeout cfg) 0) as [Ht|Ht]; simpl;
    destruct (String.length (DefaultSeverity cfg) =? 0)%nat eqn:ES; simpl;
    repeat split; try done;
    intros HS; by rewrite (proj2 (length_zero_empty _) HS) in ES.
Qed.

Lemma Validate_establishes_invariant_witness :
  URL (mkConfig "http://alertmanager:9093" 10000000000 "critical"
         None None None) <> "".
Proof.
  refine (proj1 (Validate_establishes_invariant
            (mkConfig "http://alertmanager:9093" 0 "" None None None) _ _)).
  reflexivity.
Defined.

(** X2. [Validate] is idempotent: validating the configuration it leaves
    gives the same configuration and the same error. *)
Theorem Validate_idempotent (cfg : Config) :
  Validate (Validate cfg).1 = Validate cfg.
Proof.
  destruct cfg as [u t s l a c]. unfold Validate. simpl.
  destruct u as [|cu u]; simpl; [done|].
  destruct (Z.eqb_spec t 0) as [->|Ht]; simpl;
    destruct s as [|cs s]; simpl; try done;
    by destruct (Z.eqb_spec t 0).
Qed.

(** ** Merge *)

Lemma MergeV_idemp (b o : ConfigView) :
  MergeV (MergeV b o) o = MergeV b o.
Proof.
  unfold MergeV. simpl. f_equal.
  - by destruct (0 <? String.length (vURL o))%nat.
  - by destruct (0 <? vTimeout o).
  - by destruct (0 <? String.length (vDefaultSeverity o))%nat.
  - by rewrite (assoc_L (∪)), (idemp_L (∪)).
  - by rewrite (assoc_L (∪)), (idemp_L (∪)).
  - by destruct (vClientConfig o).
Qed.

Lemma merge_map_empty (h : heap) (dst src : mapref) :
  deref h src = ∅ -> merge_map h dst src = (h, dst).
Proof.
  intros He. unfold merge_map. by rewrite He, map_size_empty.
Qed.

(** X3. An override that sets nothing (empty URL and severity, a timeout
    that is not positive, nil or empty maps, nil client configuration)
    changes neither the receiver nor the store. *)
Theorem Merge_unset_override (h : heap) (B O : Config) :
  URL O = "" ->
  Timeout O <= 0 ->
  DefaultSeverity O = "" ->
  deref h (ExtraLabels O) = ∅ ->
  deref h (ExtraAnnotations O) = ∅ ->
  ClientConfig O = None ->
  Merge h B O = (h, B).
Proof.
  intros HU HT HS HL HA HC. unfold Merge.
  rewrite (merge_map_empty h _ _ HL), (merge_map_empty h _ _ HA).
  rewrite HU, HS, HC. simpl.
  rewrite (proj2 (Z.ltb_ge _ _) HT). by destruct B.
Qed.

Lemma Merge_unset_override_witness :
  Merge test_heap test_base (mkConfig "" (-1) "" None None None)
  = (test_heap, test_base).
Proof.
  apply Merge_unset_override; try reflexivity. simpl. lia.
Defined.

(** The override's maps, being no object of the receiver, are as they were
    after the merge. *)
Lemma Merge_override_kept (h h' : heap) (B O B' : Config) :
  wf_config h B = true ->
  wf_config h O = true ->
  private_maps B O = true ->
  Merge h B O = (h', B') ->
  view h' O = view h O
  /\ wf_config h' O = true
  /\ wf_config h' B' = true
  /\ private_maps B' O = true.
Proof.
  intros HwB HwO Hp HM.
  destruct (private_maps_elim _ _ Hp) as (H1 & _ & H3 & _ & _).
  destruct (Merge_spec _ _ _ _ _ HwB HwO H1 H3 HM)
    as (_ & Hfr & _ & _ & Hw' & _ & Hmono & _).
  destruct (Merge_private _ _ _ _ _ HwB HwO Hp HM) as (_ & Hp' & _ & _).
  destruct (private_maps_elim _ _ Hp') as (_ & P2 & P3 & P4 & P5).
  assert (Hsame : forall r,
            distinct_refs (ExtraLabels B') r = true ->
            distinct_refs (ExtraAnnotations B') r = true ->
            deref h' r = deref h r).
  { intros [l|] Hr1 Hr2; [|done]. simpl. rewrite Hfr; [done| |].
    - intros Heq. by apply (proj1 (distinct_refs_spec _ _) Hr1 l).
    - intros Heq. by apply (proj1 (distinct_refs_spec _ _) Hr2 l). }
  split; [|split; [|split]]; try done.
  - unfold view. by rewrite !Hsame.
  - unfold wf_config in *. apply andb_prop in HwO as [HL HA].
    by rewrite (mono_ref_ok h h' _ Hmono HL), (mono_ref_ok h h' _ Hmono HA).
Qed.

(** X4. Merging the same override a second time changes nothing: neither
    the receiver (its fields and the map objects it holds) nor the
    store. *)
Theorem Merge_twice (h h1 : heap) (B O B1 : Config) :
  wf_config h B = true ->
  wf_config h O = true ->
  private_maps B O = true ->
  Merge h B O = (h1, B1) ->
  Merge h1 B1 O = (h1, B1).
Proof.
  intros HwB HwO Hp HM1.
  destruct (private_maps_elim _ _ Hp) as (H1 & _ & H3 & _ & _).
  destruct (Merge_spec _ _ _ _ _ HwB HwO H1 H3 HM1)
    as (Hv1 & _ & _ & _ & _ & _ & _ & _ & RL & _ & RA).
  destruct (Merge_override_kept _ _ _ _ _ HwB HwO Hp HM1)
    as (HvO & HwO1 & HwB1 & Hp1).
  destruct (Merge h1 B1 O) as [h2 B2] eqn:HM2.
  destruct (private_maps_elim _ _ Hp1) as (P1 & _ & P3 & _ & _).
  destruct (Merge_spec _ _ _ _ _ HwB1 HwO1 P1 P3 HM2)
    as (Hv2 & Hfr2 & HkL & HkA & HwB2 & _ & _ & RL1 & _ & RA1 & _).
  rewrite HvO, Hv1, MergeV_idemp, <- Hv1 in Hv2.
  assert (HL : ExtraLabels B2 = ExtraLabels B1).
  { destruct HkL as [Hk|(Hn & _)]; [done|].
    apply RL1. destruct (decide (deref h1 (ExtraLabels O) = ∅)) as [|Hne];
      [done|].
    pose proof (f_equal vExtraLabels HvO) as HO. simpl in HO.
    rewrite HO in Hne. by destruct (RL Hne). }
  assert (HA : ExtraAnnotations B2 = ExtraAnnotations B1).
  { destruct HkA as [Hk|(Hn & _)]; [done|].
    apply RA1.
    destruct (decide (deref h1 (ExtraAnnotations O) = ∅)) as [|Hne];
      [done|].
    pose proof (f_equal vExtraAnnotations HvO) as HO. simpl in HO.
    rewrite HO in Hne. by destruct (RA Hne). }
  assert (HB : B2 = B1).
  { pose proof (f_equal vURL Hv2) as E1.
    pose proof (f_equal vTimeout Hv2) as E2.
    pose proof (f_equal vDefaultSeverity Hv2) as E3.
    pose proof (f_equal vClientConfig Hv2) as E4.
    destruct B1, B2. simpl in *. congruence. }
  subst B2. f_equal.
  apply map_eq. intros l.
  pose proof (f_equal vExtraLabels Hv2) as EL.
  pose proof (f_equal vExtraAnnotations Hv2) as EA.
  simpl in EL, EA.
  unfold wf_config in HwB1, HwB2.
  apply andb_prop in HwB1 as [WL1 WA1]. apply andb_prop in HwB2 as [WL2 WA2].
  destruct (decide (Some l = ExtraLabels B1)) as [El|Nl].
  - rewrite <- El in *. simpl in *.
    destruct (h1 !! l), (h2 !! l); simpl in *; congruence.
  - destruct (decide (Some l = ExtraAnnotations B1)) as [Ea|Na].
    + rewrite <- Ea in *. simpl in *.
      destruct (h1 !! l), (h2 !! l); simpl in *; congruence.
    + by apply Hfr2.
Qed.

Lemma Merge_twice_witness :
  Merge (Merge test_heap test_base test_override).1
        (Merge test_heap test_base test_override).2 test_override
  = Merge test_heap test_base test_override.
Proof.
  rewrite (surjective_pairing (Merge test_heap test_base test_override))
    at 3.
  apply (Merge_twice test_heap _ test_base test_override _).
  - reflexivity.
  - reflexivity.
  - reflexivity.
  - apply surjective_pairing.
Defined.

(** X5. [Merge] writes only into the receiver's maps: the maps of the
    override have the contents they had, and so has every other object of
    the store that is not a map of the receiver. *)
Theorem Merge_writes_receiver_only (h h' : heap) (B O B' : Config) :
  wf_config h B = true ->
  wf_config h O = true ->
  private_maps B O = true ->
  Merge h B O = (h', B') ->
  deref h' (ExtraLabels O) = deref h (ExtraLabels O)
  /\ deref h' (ExtraAnnotations O) = deref h (ExtraAnnotations O)
  /\ (forall l, is_Some (h !! l) -> l ∉ refs B -> h' !! l = h !! l).
Proof.
  intros HwB HwO Hp HM.
  destruct (Merge_override_kept _ _ _ _ _ HwB HwO Hp HM) as (HvO & _).
  split; [exact (f_equal vExtraLabels HvO)|].
  split; [exact (f_equal vExtraAnnotations HvO)|].
  destruct (private_maps_elim _ _ Hp) as (H1 & _ & H3 & _ & _).
  destruct (Merge_spec _ _ _ _ _ HwB HwO H1 H3 HM)
    as (_ & Hfr & HkL & HkA & _).
  intros l Hl Hnot. apply Hfr.
  - intros Heq. destruct HkL as [Hk|(_ & l' & Hl' & Hnone)].
    + apply Hnot, elem_of_refs. left. congruence.
    + rewrite Hl' in Heq. injection Heq as ->.
      rewrite Hnone in Hl. by destruct Hl.
  - intros Heq. destruct HkA as [Hk|(_ & l' & Hl' & Hnone)].
    + apply Hnot, elem_of_refs. right. congruence.
    + rewrite Hl' in Heq. injection Heq as ->.
      rewrite Hnone in Hl. by destruct Hl.
Qed.

Lemma Merge_writes_receiver_only_witness :
  deref (Merge test_heap test_base test_override).1
    (ExtraLabels test_override)
  = deref test_heap (ExtraLabels test_override).
Proof.
  refine (proj1 (Merge_writes_receiver_only test_heap _ test_base
                   test_override _ _ _ _ _)).
  - reflexivity.
  - reflexivity.
  - reflexivity.
  - apply surjective_pairing.
Defined.

(** X6. When the receiver's label map is nil and the override's has
    entries, the receiver gets a new map object, one the store did not hold
    before, whose entries are exactly the override's. *)
Theorem Merge_nil_receiver_copies (h h' : heap) (B O B' : Config) :
  wf_config h B = true ->
  wf_config h O = true ->
  ExtraLabels B = None ->
  deref h (ExtraLabels O) <> ∅ ->
  Merge h B O = (h', B') ->
  exists l,
    ExtraLabels B' = Some l
    /\ h !! l = None
    /\ ExtraLabels O <> Some l
    /\ deref h' (ExtraLabels B') = deref h (ExtraLabels O).
Proof.
  intros HwB HwO HnB HO HM.
  assert (H1 : distinct_refs (ExtraLabels B) (ExtraAnnotations B) = true)
    by by rewrite HnB.
  assert (H3 : distinct_refs (ExtraLabels B) (ExtraAnnotations O) = true)
    by by rewrite HnB.
  destruct (Merge_spec _ _ _ _ _ HwB HwO H1 H3 HM)
    as (Hv & _ & HkL & _ & _ & _ & _ & _ & RL & _).
  destruct HkL as [Hk|(_ & l & Hl & Hnone)].
  { rewrite HnB in Hk. by destruct (RL HO). }
  exists l. split; [done|]. split; [done|]. split.
  - intros HOl. apply andb_prop in HwO as [HwOL _].
    destruct (proj1 (ref_ok_spec _ _) HwOL l HOl) as [? ?]. congruence.
  - pose proof (f_equal vExtraLabels Hv) as HL. simpl in HL.
    rewrite HL, HnB. simpl. apply (right_id_L ∅ (∪)).
Qed.

Lemma Merge_nil_receiver_copies_witness :
  exists l,
    ExtraLabels (Merge test_heap timeout_base test_override).2 = Some l
    /\ test_heap !! l = None.
Proof.
  destruct (Merge_nil_receiver_copies test_heap
              (Merge test_heap timeout_base test_override).1
              timeout_base test_override
              (Merge test_heap timeout_base test_override).2)
    as (l & Hl & Hnone & _).
  - reflexivity.
  - reflexivity.
  - reflexivity.
  - vm_compute. discriminate.
  - apply surjective_pairing.
  - exists l. auto.
Defined.

(** X7. [Merge] never unsets a field: a receiver with a URL, a severity,
    a positive timeout or a client configuration still has one afterwards,
    and every key of its maps is still a key. *)
Theorem Merge_never_unsets (h h' : heap) (B O B' : Config) :
  wf_config h B = true ->
  wf_config h O = true ->
  private_maps B O = true ->
  Merge h B O = (h', B') ->
  (URL B <> "" -> URL B' <> "")
  /\ (DefaultSeverity B <> "" -> DefaultSeverity B' <> "")
  /\ (0 < Timeout B -> 0 < Timeout B')
  /\ (ClientConfig B <> None -> ClientConfig B' <> None)
  /\ (forall k, is_Some (deref h (ExtraLabels B) !! k) ->
        is_Some (deref h' (ExtraLabels B') !! k))
  /\ (forall k, is_Some (deref h (ExtraAnnotations B) !! k) ->
        is_Some (deref h' (ExtraAnnotations B') !! k)).
Proof.
  intros HwB HwO Hp HM.
  destruct (Merge_private _ _ _ _ _ HwB HwO Hp HM) as (Hv & _).
  pose proof (f_equal vURL Hv) as EU.
  pose proof (f_equal vDefaultSeverity Hv) as ES.
  pose proof (f_equal vTimeout Hv) as ET.
  pose proof (f_equal vClientConfig Hv) as EC.
  pose proof (f_equal vExtraLabels Hv) as EL.
  pose proof (f_equal vExtraAnnotations Hv) as EA.
  simpl in *.
  split; [|split; [|split; [|split; [|split]]]].
  - intros HB. rewrite EU.
    destruct (0 <? String.length (URL O))%nat eqn:E; [|done].
    by apply length_pos_nonempty.
  - intros HB. rewrite ES.
    destruct (0 <? String.length (DefaultSeverity O))%nat eqn:E; [|done].
    by apply length_pos_nonempty.
  - intros HB. rewrite ET.
    destruct (Z.ltb_spec 0 (Timeout O)); done.
  - intros HB. rewrite EC. by destruct (ClientConfig O).
  - intros k [v Hk]. rewrite EL, lookup_union, Hk.
    destruct (deref h (ExtraLabels O) !! k); eauto.
  - intros k [v Hk]. rewrite EA, lookup_union, Hk.
    destruct (deref h (ExtraAnnotations O) !! k); eauto.
Qed.

Lemma Merge_never_unsets_witness :
  URL (Merge test_heap test_base test_override).2 <> "".
Proof.
  refine (proj1 (Merge_never_unsets test_heap _ test_base test_override _
                   _ _ _ _) _).
  - reflexivity.
  - reflexivity.
  - reflexivity.
  - apply surjective_pairing.
  - discriminate.
Defined.

(** ** GetConfig: errors *)

Section GetConfig_errors.
Context `{U : Unmarshaler}.

(** The two ways out of [GetConfig]: the alert's document does not decode,
    or [Validate] decides. *)
Lemma GetConfig_cases (h h' : heap) (provider : AlertProvider)
    (group : string) (alert : Alert) (cfg : option Config)
    (err : option error) :
  GetConfig h provider group alert = (h', (cfg, err)) ->
  (exists cause,
     ProviderOverride alert <> ""
     /\ yaml_Unmarshal (ProviderOverride alert) = inr cause
     /\ cfg = None /\ err = Some (ErrUnmarshal cause))
  \/ (exists c0 c,
        Validate c0 = (c, err) /\ cfg = Some c
        /\ (ProviderOverride alert = ""
            \/ exists parsed,
                 yaml_Unmarshal (ProviderOverride alert) = inl parsed)).
Proof.
  unfold GetConfig.
  destruct (copy_map h _) as [h1 rl].
  destruct (copy_map h1 _) as [h2 ra].
  destruct (merge_group h2 _ group _) as [h3 cfg3].
  rewrite blob_empty_test.
  destruct (String.eqb_spec (ProviderOverride alert) "") as [He|Hne]; simpl.
  - destruct (Validate cfg3) as [c e] eqn:EV. intros [= <- <- <-].
    right. exists cfg3, c. auto.
  - destruct (yaml_Unmarshal (ProviderOverride alert)) as [parsed|cause]
      eqn:EY.
    + destruct (alloc_parsed h3 parsed) as [h4 o].
      destruct (Merge h4 cfg3 o) as [h5 cfg5].
      destruct (Validate cfg5) as [c e] eqn:EV. intros [= <- <- <-].
      right. exists cfg5, c. eauto.
    + intros [= <- <- <-]. left. exists cause. auto.
Qed.

(** X8. When [GetConfig] returns no error it returns a configuration, and
    that configuration is a validated one: it has a URL, a timeout other
    than zero and a default severity. *)
Theorem GetConfig_success_is_valid (h h' : heap) (provider : AlertProvider)
    (group : string) (alert : Alert) (cfg : option Config) :
  GetConfig h provider group alert = (h', (cfg, None)) ->
  exists c,
    cfg = Some c
    /\ URL c <> "" /\ Timeout c <> 0 /\ DefaultSeverity c <> "".
Proof.
  intros HG.
  destruct (GetConfig_cases _ _ _ _ _ _ _ HG)
    as [(cause & _ & _ & _ & ?)|(c0 & c & HV & -> & _)]; [done|].
  exists c. split; [done|].
  unfold Validate in HV.
  destruct (String.length (URL c0) =? 0)%nat eqn:EU; [done|].
  injection HV as <-.
  assert (HU : URL c0 <> "").
  { intros HU. by rewrite (proj2 (length_zero_empty _) HU) in EU. }
  destruct (Z.eqb_spec (Timeout c0) 0) as [Ht|Ht]; simpl;
    destruct (String.length (DefaultSeverity c0) =? 0)%nat eqn:ES; simpl;
    repeat split; try done;
    intros HS; by rewrite (proj2 (length_zero_empty _) HS) in ES.
Qed.

(** X9. [GetConfig] returns a nil configuration exactly when the alert
    carries a document that does not decode; the error is then the
    decoder's.  In every other case it returns a configuration, also when
    it returns an error. *)
Theorem GetConfig_nil_iff_undecodable (h h' : heap)
    (provider : AlertProvider) (group : string) (alert : Alert)
    (cfg : option Config) (err : option error) :
  GetConfig h provider group alert = (h', (cfg, err)) ->
  (cfg = None <->
     ProviderOverride alert <> ""
     /\ exists cause,
          yaml_Unmarshal (ProviderOverride alert) = inr cause
          /\ err = Some (ErrUnmarshal cause)).
Proof.
  intros HG.
  destruct (GetConfig_cases _ _ _ _ _ _ _ HG)
    as [(cause & Hne & HY & -> & ->)|(c0 & c & HV & -> & Hdoc)].
  - split; [eauto|done].
  - split; [done|]. intros (Hne & cause & HY & _).
    destruct Hdoc as [He|(parsed & HP)]; congruence.
Qed.

(** X10. [GetConfig] fails with [ErrAlertmanagerURLNotSet] exactly when it
    reaches validation with no layer setting the URL: the default
    configuration, the override of the group and the alert's document all
    leave it empty. *)
Theorem GetConfig_url_error_iff (h h' : heap) (provider : AlertProvider)
    (group : string) (alert : Alert) (cfg : option Config)
    (err : option error) :
  wf_provider h provider = true ->
  GetConfig h provider group alert = (h', (cfg, err)) ->
  (err = Some ErrAlertmanagerURLNotSet <->
     cfg <> None
     /\ URL (DefaultConfig provider) = ""
     /\ vURL (group_layer h provider group) = ""
     /\ vURL (alert_layer alert) = "").
Proof.
  intros Hwp HG.
  destruct (GetConfig_as_layers _ _ _ _ _ _ _ Hwp HG) as (_ & _ & Hl).
  destruct (GetConfig_cases _ _ _ _ _ _ _ HG)
    as [(cause & Hne & HY & -> & ->)|(c0 & c & _ & -> & _)].
  { split; [done|]. by intros (? & _). }
  specialize (Hl c eq_refl). unfold ValidateV in Hl. simpl in Hl.
  set (a := vURL (alert_layer alert)) in *.
  set (g := vURL (group_layer h provider group)) in *.
  set (d := URL (DefaultConfig provider)) in *.
  apply (f_equal snd) in Hl.
  destruct a as [|ca a], g as [|cg g], d as [|cd d]; simpl in Hl;
    subst err; split; try done;
    intros (_ & ? & ? & ?); done.
Qed.

End GetConfig_errors.

Lemma GetConfig_success_is_valid_witness :
  exists c,
    (GetConfig (H:=example_unmarshal) test_heap example_provider "prod"
       example_alert).2.1 = Some c
    /\ URL c <> "".
Proof.
  destruct (GetConfig_success_is_valid (U:=example_unmarshal) test_heap
              (GetConfig (H:=example_unmarshal) test_heap example_provider
                 "prod" example_alert).1
              example_provider "prod" example_alert
              (GetConfig (H:=example_unmarshal) test_heap example_provider
                 "prod" example_alert).2.1)
    as (c & Hc & HU & _).
  - by vm_compute.
  - exists c. auto.
Defined.

Lemma GetConfig_nil_iff_undecodable_witness :
  (GetConfig (H:=example_unmarshal) test_heap example_provider "prod"
     (mkAlert None "url: [")).2.1 = None.
Proof.
  refine (proj2 (GetConfig_nil_iff_undecodable (U:=example_unmarshal)
            test_heap
            (GetConfig (H:=example_unmarshal) test_heap example_provider
               "prod" (mkAlert None "url: [")).1
            example_provider "prod" (mkAlert None "url: [")
            _
            (GetConfig (H:=example_unmarshal) test_heap example_provider
               "prod" (mkAlert None "url: [")).2.2 _) _).
  - by destruct (GetConfig _ _ _ _) as [? [? ?]].
  - split; [discriminate|].
    exists "yaml: unmarshal errors". split; reflexivity.
Defined.

Lemma GetConfig_url_error_iff_witness :
  (GetConfig (H:=example_unmarshal) ∅
     (mkAlertProvider (mkConfig "" 0 "" None None None) None []) "prod"
     (mkAlert None "")).2.2 = Some ErrAlertmanagerURLNotSet.
Proof.
  refine (proj2 (GetConfig_url_error_iff (U:=example_unmarshal) ∅
            (GetConfig (H:=example_unmarshal) ∅
               (mkAlertProvider (mkConfig "" 0 "" None None None) None [])
               "prod" (mkAlert None "")).1
            (mkAlertProvider (mkConfig "" 0 "" None None None) None [])
            "prod" (mkAlert None "")
            (GetConfig (H:=example_unmarshal) ∅
               (mkAlertProvider (mkConfig "" 0 "" None None None) None [])
               "prod" (mkAlert None "")).2.1
            _ _ _) _).
  - reflexivity.
  - by destruct (GetConfig _ _ _ _) as [? [? ?]].
  - repeat split. discriminate.
Defined.

(** ** Validating the provider, validating overrides, sending *)

Lemma Validate_refs (cfg cfg' : Config) (err : option error) :
  Validate cfg = (cfg', err) ->
  ExtraLabels cfg' = ExtraLabels cfg
  /\ ExtraAnnotations cfg' = ExtraAnnotations cfg.
Proof.
  intros HV. by destruct (Validate_view ∅ _ _ _ HV) as (_ & ? & ?).
Qed.

(** What [Validate] accepts has a URL. *)
Lemma Validate_establishes_url (cfg cfg' : Config) :
  Validate cfg = (cfg', None) -> URL cfg' <> "".
Proof.
  unfold Validate.
  destruct (String.length (URL cfg) =? 0)%nat eqn:EU; [done|].
  intros [= <-].
  assert (HU : URL cfg <> "").
  { intros HU. by rewrite (proj2 (length_zero_empty _) HU) in EU. }
  destruct (Timeout cfg =? 0); simpl;
    destruct (String.length (DefaultSeverity cfg) =? 0)%nat; simpl; done.
Qed.

Section Provider_methods.
Context `{U : Unmarshaler}.

(** X11. Once [AlertProvider.Validate] has accepted the provider, no
    group override and no alert override can make [GetConfig] fail for a
    missing URL; with an alert that carries no override document
    [GetConfig] succeeds for every group. *)
Theorem validated_provider_has_url (h h' : heap)
    (provider provider' : AlertProvider) (group : string) (alert : Alert)
    (cfg : option Config) (err : option error) :
  wf_provider h provider = true ->
  AlertProvider_Validate provider = (provider', None) ->
  GetConfig h provider' group alert = (h', (cfg, err)) ->
  err <> Some ErrAlertmanagerURLNotSet
  /\ (ProviderOverride alert = "" -> err = None /\ cfg <> None).
Proof.
  intros Hwp HPV HG. unfold AlertProvider_Validate in HPV.
  destruct (Validate (DefaultConfig provider)) as [d e] eqn:HV.
  injection HPV as <- ->.
  destruct (Validate_refs _ _ _ HV) as [HL HA].
  pose proof (Validate_establishes_url _ _ HV) as HU.
  assert (Hwp' : wf_provider h
            (mkAlertProvider d (DefaultAlert provider) (Overrides provider))
          = true).
  { unfold wf_provider, wf_config in *. simpl. by rewrite HL, HA. }
  destruct (GetConfig_as_layers _ _ _ _ _ _ _ Hwp' HG) as (_ & _ & Hl).
  destruct (GetConfig_cases _ _ _ _ _ _ _ HG)
    as [(cause & Hne & HY & -> & ->)|(c0 & c & _ & -> & _)].
  { split; [done|]. intros He. by rewrite He in Hne. }
  specialize (Hl c eq_refl). apply (f_equal snd) in Hl.
  unfold ValidateV in Hl. simpl in Hl.
  destruct (vURL (alert_layer alert)) as [|ca a],
    (vURL (group_layer h _ group)) as [|cg g],
    (URL d) as [|cd u]; simpl in Hl; subst err; try done.
Qed.

End Provider_methods.

Lemma validated_provider_has_url_witness :
  (GetConfig (H:=example_unmarshal) test_heap
     (AlertProvider_Validate example_provider).1 "other"
     (mkAlert None "")).2.2 = None.
Proof.
  refine (proj1 (proj2 (validated_provider_has_url (U:=example_unmarshal)
            test_heap
            (GetConfig (H:=example_unmarshal) test_heap
               (AlertProvider_Validate example_provider).1 "other"
               (mkAlert None "")).1
            example_provider (AlertProvider_Validate example_provider).1
            "other" (mkAlert None "")
            (GetConfig (H:=example_unmarshal) test_heap
               (AlertProvider_Validate example_provider).1 "other"
               (mkAlert None "")).2.1
            _ _ _ _) _)).
  - reflexivity.
  - reflexivity.
  - by destruct (GetConfig _ _ _ _) as [? [? ?]].
  - reflexivity.
Defined.

(** Without an error there is a configuration. *)
Lemma GetConfig_success_valid_config `{U : Unmarshaler} (h h' : heap)
    (provider : AlertProvider) (group : string) (alert : Alert)
    (cfg : option Config) :
  GetConfig h provider group alert = (h', (cfg, None)) ->
  exists c, cfg = Some c.
Proof.
  intros HG.
  destruct (GetConfig_cases _ _ _ _ _ _ _ HG)
    as [(cause & _ & _ & _ & ?)|(c0 & c & _ & -> & _)]; [done|eauto].
Qed.

(** A configuration reads the same in two stores that agree on its
    maps. *)
Lemma ref_agree (h h2 : heap) (r : mapref) :
  (forall l, r = Some l -> h2 !! l = h !! l) ->
  ref_ok h2 r = ref_ok h r /\ deref h2 r = deref h r.
Proof.
  destruct r as [l|]; [|done]. intros Hl. simpl.
  by rewrite (Hl l eq_refl).
Qed.

Lemma view_agree (h h2 : heap) (c : Config) :
  (forall l, l ∈ refs c -> h2 !! l = h !! l) ->
  wf_config h2 c = wf_config h c /\ view h2 c = view h c.
Proof.
  intros Hag. unfold wf_config, view.
  destruct (ref_agree h h2 (ExtraLabels c)) as [-> ->].
  { intros l Hl. apply Hag, elem_of_refs. by left. }
  destruct (ref_agree h h2 (ExtraAnnotations c)) as [-> ->].
  { intros l Hl. apply Hag, elem_of_refs. by right. }
  done.
Qed.

Lemma provider_refs_override (p : AlertProvider) (o : Override)
    (l : positive) :
  In o (Overrides p) -> l ∈ refs (OverrideConfig o) -> l ∈ provider_refs p.
Proof.
  intros Hin Hl. unfold provider_refs. apply elem_of_app. right.
  apply list_elem_of_In, in_concat.
  exists (refs (OverrideConfig o)). split; [|by apply list_elem_of_In].
  apply in_map_iff. eauto.
Qed.

Lemma forallb_agree {A : Type} (f g : A -> bool) (l : list A) :
  (forall x, In x l -> f x = g x) -> forallb f l = forallb g l.
Proof.
  induction l as [|x l IH]; simpl; intros Hfg; [done|].
  rewrite (Hfg x) by (by left). rewrite IH; [done|].
  intros y Hy. apply Hfg. by right.
Qed.

(** [GetConfig]'s description, and the well-formedness of the provider,
    depend on the store through the provider's maps only. *)
Lemma effective_config_agree `{U : Unmarshaler} (h h2 : heap)
    (provider : AlertProvider) (group : string) (alert : Alert) :
  (forall l, l ∈ provider_refs provider -> h2 !! l = h !! l) ->
  wf_provider h2 provider = wf_provider h provider
  /\ effective_config h2 provider group alert
     = effective_config h provider group alert.
Proof.
  intros Hag.
  assert (Hd : forall l, l ∈ refs (DefaultConfig provider) ->
                 h2 !! l = h !! l).
  { intros l Hl. apply Hag. unfold provider_refs. apply elem_of_app.
    by left. }
  assert (Ho : forall o, In o (Overrides provider) ->
                 wf_config h2 (OverrideConfig o)
                 = wf_config h (OverrideConfig o)
                 /\ view h2 (OverrideConfig o) = view h (OverrideConfig o)).
  { intros o Hin. apply view_agree. intros l Hl. apply Hag.
    by eapply provider_refs_override. }
  destruct (view_agree h h2 _ Hd) as [Hwd Hvd].
  split.
  - unfold wf_provider. rewrite Hwd. f_equal.
    apply forallb_agree. intros o Hin. by apply Ho.
  - unfold effective_config. rewrite Hvd.
    destruct (first_match group (Overrides provider)) as [o|] eqn:Hf;
      [|done].
    unfold first_match in Hf. apply find_some in Hf as [Hin _].
    by rewrite (proj2 (Ho o Hin)).
Qed.

Section Send_properties.
Context `{U : Unmarshaler} `{T : Transport}.

(** X12. [ValidateOverrides] predicts [Send]: in every later store that
    still holds the provider's maps with their contents, whatever else it
    holds, if [ValidateOverrides] returned an error for the endpoint's
    group and the alert, [Send] returns that error, whatever the transport
    would do; if it returned none, [Send] returns what the delivery of the
    one payload built from the effective configuration returns. *)
Theorem ValidateOverrides_predicts_Send (h h1 h2 : heap)
    (provider : AlertProvider) (ep : Endpoint) (alert : Alert)
    (result : Result) (resolved : bool) (now : Time)
    (verr : option error) :
  wf_provider h provider = true ->
  (forall l, l ∈ provider_refs provider -> h2 !! l = h !! l) ->
  ValidateOverrides h provider (EpGroup ep) alert = (h1, verr) ->
  match verr with
  | Some e =>
      (Send h2 provider ep alert result resolved now).2 = Some e
  | None =>
      exists h3 cfg,
        GetConfig h2 provider (EpGroup ep) alert = (h3, (Some cfg, None))
        /\ Send h2 provider ep alert result resolved now
           = (h3, sendToAlertmanager cfg
                    [buildAlert h3 cfg ep alert result resolved now])
  end.
Proof.
  intros Hwp Hag HVO. unfold ValidateOverrides in HVO.
  destruct (GetConfig h provider (EpGroup ep) alert) as [h1' [cfg1 err1]]
    eqn:HG1.
  injection HVO as -> ->.
  destruct (GetConfig_spec _ _ _ _ _ _ _ Hwp HG1) as (_ & Heff1 & _).
  destruct (effective_config_agree h h2 provider (EpGroup ep) alert Hag)
    as [Hwp2 Heq].
  rewrite Hwp in Hwp2.
  destruct (GetConfig h2 provider (EpGroup ep) alert) as [h3 [cfg2 err2]]
    eqn:HG2.
  destruct (GetConfig_spec _ _ _ _ _ _ _ Hwp2 HG2) as (_ & Heff2 & _).
  rewrite Heq, <- Heff1 in Heff2.
  injection Heff2 as Hv Herr. subst err2.
  unfold Send. rewrite HG2.
  destruct verr as [e|]; [done|].
  destruct (GetConfig_success_valid_config _ _ _ _ _ _ HG2) as [c ->].
  by exists h3, c.
Qed.

End Send_properties.

Lemma ValidateOverrides_predicts_Send_witness :
  (Send (H:=example_unmarshal) (H0:=unavailable_transport) ∅
     (mkAlertProvider (mkConfig "http://am:9093" 0 "" None None None) None [])
     build_endpoint (mkAlert None "url: [")
     build_result false 1700000000).2
  = Some (ErrUnmarshal "yaml: unmarshal errors").
Proof.
  refine (ValidateOverrides_predicts_Send (U:=example_unmarshal)
            (T:=unavailable_transport) test_heap
            (ValidateOverrides (H:=example_unmarshal) test_heap
               (mkAlertProvider
                  (mkConfig "http://am:9093" 0 "" None None None) None [])
               (EpGroup build_endpoint) (mkAlert None "url: [")).1
            ∅
            (mkAlertProvider
               (mkConfig "http://am:9093" 0 "" None None None) None [])
            build_endpoint
            (mkAlert None "url: [") build_result false 1700000000
            (Some (ErrUnmarshal "yaml: unmarshal errors")) _ _ _).
  - reflexivity.
  - intros l Hl. by apply elem_of_nil in Hl.
  - reflexivity.
Defined.

(** ** Delivery: the remaining paths *)

Section Delivery_paths.
Context `{T : Transport}.

(** X13. [sendToAlertmanager] returns no error exactly when the payload
    was encoded, the request was created, the client returned a response
    and the status of the response is in [200,300); a failure of the
    encoder, of the request creation or of the round trip is returned as
    the error that wraps its cause. *)
Theorem sendToAlertmanager_succeeds_iff (cfg : Config)
    (alerts : list AlertmanagerAlert) :
  (sendToAlertmanager cfg alerts = None <->
     exists jsonPayload resp,
       json_Marshal alerts = inl jsonPayload
       /\ http_NewRequest (alerts_url (URL cfg)) = None
       /\ http_Do (alerts_request cfg jsonPayload) = inl resp
       /\ 200 <= StatusCode resp < 300)
  /\ (forall cause, json_Marshal alerts = inr cause ->
        sendToAlertmanager cfg alerts = Some (ErrMarshal cause))
  /\ (forall jsonPayload cause,
        json_Marshal alerts = inl jsonPayload ->
        http_NewRequest (alerts_url (URL cfg)) = Some cause ->
        sendToAlertmanager cfg alerts = Some (ErrCreateRequest cause))
  /\ (forall jsonPayload cause,
        json_Marshal alerts = inl jsonPayload ->
        http_NewRequest (alerts_url (URL cfg)) = None ->
        http_Do (alerts_request cfg jsonPayload) = inr cause ->
        sendToAlertmanager cfg alerts = Some (ErrSendRequest cause)).
Proof.
  unfold sendToAlertmanager.
  split; [|split; [|split]].
  - destruct (json_Marshal alerts) as [payload|cause].
    + destruct (http_NewRequest (alerts_url (URL cfg))) as [cause|].
      * split; [done|]. by intros (? & ? & _ & ? & _).
      * destruct (http_Do (alerts_request cfg payload)) as [resp|cause]
          eqn:HD.
        -- destruct (Z.ltb_spec (StatusCode resp) 200) as [Hlt|Hge]; simpl.
           { split; [done|].
             intros (p & r & [= <-] & _ & Hr & ?).
             rewrite HD in Hr. injection Hr as <-. lia. }
           destruct (Z.leb_spec 300 (StatusCode resp)) as [Hle|Hlt]; simpl.
           { split; [done|].
             intros (p & r & [= <-] & _ & Hr & ?).
             rewrite HD in Hr. injection Hr as <-. lia. }
           split; [|done]. intros _. exists payload, resp.
           repeat split; (done || lia).
        -- split; [done|]. intros (p & r & [= <-] & _ & Hr & _).
           by rewrite HD in Hr.
    + split; [done|]. by intros (? & ? & ? & _).
  - by intros cause ->.
  - by intros payload cause -> ->.
  - by intros payload cause -> -> ->.
Qed.

End Delivery_paths.

(** X14. The request target always ends with the alerts path, and
    computing it is idempotent: a target, configured as the URL, is its own
    target. *)
Theorem alerts_url_stable (u : string) :
  (exists p, alerts_url u = p ++ "/api/v2/alerts")
  /\ alerts_url (alerts_url u) = alerts_url u.
Proof.
  assert (Hp : exists p, alerts_url u = p ++ "/api/v2/alerts").
  { unfold alerts_url.
    destruct (strings_HasSuffix (strings_TrimSuffix u "/") "/api/v2/alerts")
      eqn:E; simpl.
    - by apply strings_HasSuffix_spec.
    - by exists (strings_TrimSuffix u "/"). }
  split; [done|]. destruct Hp as [p ->].
  unfold alerts_url, strings_TrimSuffix.
  rewrite alerts_path_no_slash.
  assert (Hs : strings_HasSuffix (p ++ "/api/v2/alerts") "/api/v2/alerts"
               = true).
  { apply strings_HasSuffix_spec. by exists p. }
  by rewrite Hs.
Qed.


(** ** buildAlert: labels and the keys of the payload *)

(** The labels are the extra labels laid over the fixed ones. *)
Lemma buildAlert_Labels (h : heap) (cfg : Config) (ep : Endpoint)
    (alert : Alert) (result : Result) (resolved : bool) (now : Time) :
  Labels (buildAlert h cfg ep alert result resolved now)
  = deref h (ExtraLabels cfg)
    ∪ (let fixed : gmap string string :=
         <["endpoint" := EpName ep]>
           (<["severity" := DefaultSeverity cfg]>
              (<["job" := "gatus"]>
                 (<["instance" := EpURL ep]>
                    (<["alertname" := "GatusEndpointDown"]> ∅)))) in
       if negb (String.eqb (EpGroup ep) "")
       then <["group" := EpGroup ep]> fixed else fixed).
Proof.
  unfold buildAlert. destruct resolved; simpl;
    by rewrite range_insert_union.
Qed.

(** X15. Whatever the alert, the result and the [resolved] flag, the
    labels of the payload are: the five fixed labels (alert name, instance,
    job, severity of the configuration, endpoint name), the group label
    exactly when the endpoint has a group, and the extra labels of the
    configuration, which win on every key they carry.  No other key is
    present. *)
Theorem buildAlert_labels (h : heap) (cfg : Config) (ep : Endpoint)
    (alert : Alert) (result : Result) (resolved : bool) (now : Time) :
  let labels := Labels (buildAlert h cfg ep alert result resolved now) in
  let extra := deref h (ExtraLabels cfg) in
  dom labels
  = {[ "alertname"; "instance"; "job"; "severity"; "endpoint" ]}
    ∪ (if String.eqb (EpGroup ep) "" then ∅ else {[ "group" ]})
    ∪ dom extra
  /\ (forall k v, extra !! k = Some v -> labels !! k = Some v)
  /\ (extra !! "alertname" = None ->
        labels !! "alertname" = Some "GatusEndpointDown")
  /\ (extra !! "instance" = None -> labels !! "instance" = Some (EpURL ep))
  /\ (extra !! "job" = None -> labels !! "job" = Some "gatus")
  /\ (extra !! "severity" = None ->
        labels !! "severity" = Some (DefaultSeverity cfg))
  /\ (extra !! "endpoint" = None -> labels !! "endpoint" = Some (EpName ep))
  /\ (extra !! "group" = None ->
        labels !! "group"
        = if String.eqb (EpGroup ep) "" then None else Some (EpGroup ep)).
Proof.
  intros labels extra. subst labels extra.
  rewrite buildAlert_Labels.
  set (extra := deref h (ExtraLabels cfg)).
  split; [|split; [|split; [|split; [|split; [|split; [|split]]]]]].
  - rewrite dom_union_L.
    destruct (String.eqb (EpGroup ep) ""); simpl;
      rewrite !dom_insert_L, dom_empty_L;
      apply set_eq; intros x; set_unfold; tauto.
  - intros k v Hk. by rewrite lookup_union, Hk, union_Some_l.
  - intros Hx. rewrite lookup_union, Hx, (left_id_L None union).
    destruct (String.eqb (EpGroup ep) ""); simpl; by simplify_map_eq.
  - intros Hx. rewrite lookup_union, Hx, (left_id_L None union).
    destruct (String.eqb (EpGroup ep) ""); simpl; by simplify_map_eq.
  - intros Hx. rewrite lookup_union, Hx, (left_id_L None union).
    destruct (String.eqb (EpGroup ep) ""); simpl; by simplify_map_eq.
  - intros Hx. rewrite lookup_union, Hx, (left_id_L None union).
    destruct (String.eqb (EpGroup ep) ""); simpl; by simplify_map_eq.
  - intros Hx. rewrite lookup_union, Hx, (left_id_L None union).
    destruct (String.eqb (EpGroup ep) ""); simpl; by simplify_map_eq.
  - intros Hx. rewrite lookup_union, Hx, (left_id_L None union).
    destruct (String.eqb (EpGroup ep) ""); simpl; by simplify_map_eq.
Qed.

(** X16. The annotations of the payload have the keys "summary" and
    "description", the key "alert_description" exactly when the alert has
    a description, and the keys of the extra annotations, and no other key;
    unless the extra annotations carry the key, "alert_description" is the
    alert's description, and the description of a resolved alert is
    "Endpoint <name> (<url>) has recovered and is now passing health
    checks".  [StartsAt] is the instant of the call. *)
Theorem buildAlert_annotation_keys (h : heap) (cfg : Config) (ep : Endpoint)
    (alert : Alert) (result : Result) (resolved : bool) (now : Time) :
  let payload := buildAlert h cfg ep alert result resolved now in
  let extra := deref h (ExtraAnnotations cfg) in
  dom (Annotations payload)
  = {[ "summary"; "description" ]}
    ∪ (if String.eqb (GetDescription alert) "" then ∅
       else {[ "alert_description" ]})
    ∪ dom extra
  /\ (extra !! "alert_description" = None ->
        Annotations payload !! "alert_description"
        = if String.eqb (GetDescription alert) "" then None
          else Some (GetDescription alert))
  /\ (extra !! "description" = None -> resolved = true ->
        Annotations payload !! "description"
        = Some ("Endpoint " ++ EpName ep ++ " (" ++ EpURL ep
                  ++ ") has recovered and is now passing health checks"))
  /\ StartsAt payload = now.
Proof.
  intros payload extra. subst payload extra.
  set (extra := deref h (ExtraAnnotations cfg)).
  split; [|split; [|split]].
  - unfold buildAlert.
    destruct resolved; simpl; rewrite range_insert_union, dom_union_L;
      fold extra;
      destruct (String.eqb (GetDescription alert) ""); simpl;
      rewrite !dom_insert_L, dom_empty_L;
      apply set_eq; intros x; set_unfold; tauto.
  - intros Hx. unfold buildAlert.
    destruct resolved; simpl; rewrite range_insert_union, lookup_union;
      fold extra; rewrite Hx, (left_id_L None union);
      destruct (String.eqb (GetDescription alert) ""); simpl;
      by simplify_map_eq.
  - intros Hx ->. by rewrite buildAlert_annotations.
  - by destruct resolved.
Qed.


(** ** Composition: from the provider to the payload *)

Section Composition.
Context `{U : Unmarshaler}.


(** X18. Every payload built from a configuration that [GetConfig]
    returned without error carries a severity label that is not empty,
    provided the extra labels do not carry the key "severity": the label is
    the effective default severity. *)
Theorem payload_severity_not_empty (h h' : heap) (provider : AlertProvider)
    (ep : Endpoint) (alert : Alert) (result : Result) (resolved : bool)
    (now : Time) (c : Config) :
  GetConfig h provider (EpGroup ep) alert = (h', (Some c, None)) ->
  deref h' (ExtraLabels c) !! "severity" = None ->
  Labels (buildAlert h' c ep alert result resolved now) !! "severity"
  = Some (DefaultSeverity c)
  /\ DefaultSeverity c <> "".
Proof.
  intros HG Hx.
  destruct (GetConfig_cases _ _ _ _ _ _ _ HG)
    as [(cause & _ & _ & ? & _)|(c0 & c' & HV & [= <-] & _)]; [done|].
  split.
  - rewrite buildAlert_Labels, lookup_union, Hx, (left_id_L None union).
    destruct (negb (String.eqb (EpGroup ep) "")); simpl; by simplify_map_eq.
  - unfold Validate in HV.
    destruct (String.length (URL c0) =? 0)%nat; [done|].
    injection HV as <-.
    destruct (Timeout c0 =? 0); simpl;
      destruct (String.length (DefaultSeverity c0) =? 0)%nat eqn:ES; simpl;
      try done; intros HS;
      by rewrite (proj2 (length_zero_empty _) HS) in ES.
Qed.

End Composition.


Lemma payload_severity_not_empty_witness :
  Labels (buildAlert ∅
            (mkConfig "http://am:9093" 10000000000 "critical" None None None)
            build_endpoint build_alert build_result false 1700000000)
    !! "severity" = Some "critical".
Proof.
  refine (proj1 (payload_severity_not_empty (U:=example_unmarshal) ∅ ∅
            (mkAlertProvider (mkConfig "http://am:9093" 0 "" None None None)
               None [])
            build_endpoint build_alert build_result false 1700000000
            (mkConfig "http://am:9093" 10000000000 "critical" None None None)
            _ _)).
  - reflexivity.
  - reflexivity.
Defined.

(** ** The order of the visits *)

(** X19. Go visits the entries of a map in an unspecified order.  The
    copy loops of [Merge], [GetConfig] and [buildAlert] do not depend on
    it: for every order of the visits, the loop that writes through a
    reference leaves the same store, and the loop on a payload map gives
    the override's entries laid over the map. *)
Theorem range_loops_any_order (h : heap) (l : positive)
    (src m : gmap string string) (es : list (string * string)) :
  es ≡ₚ map_to_list src ->
  range_assign h l es = range_assign h l (map_to_list src)
  /\ range_insert m es = src ∪ m
  /\ (forall m0, h !! l = Some m0 ->
        range_assign h l es !! l = Some (src ∪ m0)).
Proof.
  intros Hp. split; [by apply range_assign_perm|].
  split; [by apply range_insert_perm|].
  intros m0 Hl. rewrite (range_assign_lookup h l es m0 Hl).
  by rewrite (range_insert_perm es src m0 Hp).
Qed.

Lemma range_loops_any_order_witness :
  range_insert {[ "team" := "platform" ]}
    (reverse (map_to_list ({[ "a" := "1"; "b" := "2" ]} : gmap string string)))
  = ({[ "a" := "1"; "b" := "2" ]} : gmap string string)
      ∪ {[ "team" := "platform" ]}.
Proof.
  refine (proj1 (proj2 (range_loops_any_order ∅ 1%positive _ _ _ _))).
  apply reverse_Permutation.
Defined.
